(** * PennyLane: the symbolic power operator and the commutation DAG

    A shallow embedding of [pennylane/ops/op_math/pow_class.py] over a small
    Python object store, followed by a model of the commutation rule engine
    and of the commutation DAG that [tests/transforms/test_commutation_dag.py]
    exercises. *)

From Stdlib Require Import ZArith QArith Qcanon PrimFloat Bool.
From stdpp Require Import gmap strings list pretty.

Close Scope Q_scope.
Open Scope string_scope.
Open Scope Z_scope.

(** ** Python values and the object store *)

Module Py.

(** Object identity: the position of the object in the store. *)
Abbreviation ref := nat (only parsing).

(** Python numbers as [Pow] meets them: [bool] is a subclass of [int], so
    [isinstance(True, int)] holds; a [float] is an IEEE-754 double. *)
Inductive number :=
| NBool (b : bool)
| NInt (n : Z)
| NFloat (f : float).

Inductive value :=
| VNone
| VNum (x : number)
| VStr (s : string)
| VRef (r : ref).

(** The classes an operator instance can have. The four [Pow] types are the
    ones [Pow.__new__] creates and caches; every other operator class is
    described by its name and by whether it inherits from [Operation] and from
    [Observable]. *)
Inductive pow_type :=
| PowPlain
| PowOperationType
| PowOperationObservableType
| PowObservableType.

Record op_class := OpClass {
  cls_name : string;
  cls_operation : bool;
  cls_observable : bool
}.

Inductive pyclass :=
| ClsPow (t : pow_type)
| ClsOp (c : op_class).

(** Store cells: class instances with their [__dict__], dicts with string
    keys, and lists. *)
Inductive pyobj :=
| Instance (cls : pyclass) (attrs : gmap string value)
| PyDict (items : gmap string value)
| PyList (items : list value).

Inductive exn :=
| PowUndefinedError
| DecompositionUndefinedError
| SparseMatrixUndefinedError
| NotImplementedError (msg : string)
| AttributeError (attr : string)
| KeyError (key : string)
| TypeError
| IndexError
| ValueError (msg : string)
| RecursionError.

Inductive outcome (A : Type) :=
| Ret (a : A)
| Raise (e : exn).
Arguments Ret {A} a.
Arguments Raise {A} e.

(** The queuing context: whether a context is recording, and the annotated
    queue of the active context (object, metadata), in insertion order. *)
Record state := State {
  heap : list pyobj;
  recording : bool;
  queue : list (ref * gmap string value)
}.

(** Computations: a state transformer that returns or raises. What a raising
    computation did to the store before it raised stays done. *)
Definition py (A : Type) := state -> outcome A * state.

Definition ret {A} (a : A) : py A := fun s => (Ret a, s).
Definition raise {A} (e : exn) : py A := fun s => (Raise e, s).
Definition bind {A B} (m : py A) (k : A -> py B) : py B :=
  fun s => match m s with
           | (Ret a, s') => k a s'
           | (Raise e, s') => (Raise e, s')
           end.

Declare Scope py_scope.
Delimit Scope py_scope with py.
Notation "x <- m ;; k" := (bind m (fun x => k))
  (at level 100, m at next level, right associativity) : py_scope.
Notation "m ;;; k" := (bind m (fun _ => k))
  (at level 100, right associativity) : py_scope.
Open Scope py_scope.

Definition get_state : py state := fun s => (Ret s, s).

Definition set_heap (h : list pyobj) : py unit :=
  fun s => (Ret tt, State h (recording s) (queue s)).

Definition set_queue (q : list (ref * gmap string value)) : py unit :=
  fun s => (Ret tt, State (heap s) (recording s) q).

(** [object.__new__] and the constructors of dicts and lists: the new cell is
    appended, so its identity differs from that of every live object. *)
Definition alloc (o : pyobj) : py ref :=
  fun s => (Ret (length (heap s)), State (heap s ++ [o]) (recording s) (queue s)).

Definition deref (r : ref) : py pyobj :=
  fun s => match heap s !! r with
           | Some o => (Ret o, s)
           | None => (Raise TypeError, s)
           end.

Definition store (r : ref) (o : pyobj) : py unit :=
  fun s => (Ret tt, State (<[r:=o]> (heap s)) (recording s) (queue s)).

(** Plain attribute access on an instance: [obj.name], [obj.name = v]. *)
Definition getattr (v : value) (name : string) : py value :=
  match v with
  | VRef r =>
      o <- deref r ;;
      match o with
      | Instance _ attrs =>
          match attrs !! name with
          | Some x => ret x
          | None => raise (AttributeError name)
          end
      | _ => raise (AttributeError name)
      end
  | _ => raise (AttributeError name)
  end.

Definition setattr (v : value) (name : string) (x : value) : py unit :=
  match v with
  | VRef r =>
      o <- deref r ;;
      match o with
      | Instance cls attrs => store r (Instance cls (<[name:=x]> attrs))
      | _ => raise (AttributeError name)
      end
  | _ => raise (AttributeError name)
  end.

(** [d[key]] and [d[key] = v] on a dict. *)
Definition getitem (v : value) (key : string) : py value :=
  match v with
  | VRef r =>
      o <- deref r ;;
      match o with
      | PyDict items =>
          match items !! key with
          | Some x => ret x
          | None => raise (KeyError key)
          end
      | _ => raise TypeError
      end
  | _ => raise TypeError
  end.

Definition setitem (v : value) (key : string) (x : value) : py unit :=
  match v with
  | VRef r =>
      o <- deref r ;;
      match o with
      | PyDict items => store r (PyDict (<[key:=x]> items))
      | _ => raise TypeError
      end
  | _ => raise TypeError
  end.



(** Truth value of an object in a condition. *)
Definition truthy (h : list pyobj) (v : value) : bool :=
  match v with
  | VNone => false
  | VNum (NBool b) => b
  | VNum (NInt n) => negb (Z.eqb n 0)
  | VNum (NFloat f) => negb (PrimFloat.eqb f 0%float)
  | VStr s => negb (String.eqb s "")
  | VRef r =>
      match h !! r with
      | Some (PyDict items) => negb (bool_decide (items = ∅))
      | Some (PyList items) => negb (bool_decide (length items = 0%nat))
      | _ => true
      end
  end.

(** [isinstance(z, int)]: the integer a number stands for, if it is one. *)
Definition as_int (x : number) : option Z :=
  match x with
  | NBool b => Some (if b then 1 else 0)
  | NInt n => Some n
  | NFloat _ => None
  end.

(** [z * -1]. *)
Definition negate (x : number) : number :=
  match x with
  | NBool b => NInt (if b then -1 else 0)
  | NInt n => NInt (- n)
  | NFloat f => NFloat (f * (-1))%float
  end.

(** [x is True]. *)
Definition is_True (v : value) : bool :=
  match v with
  | VNum (NBool true) => true
  | _ => false
  end.

End Py.

(** ** pow_class.py *)

Module PowClass.
Import Py.

(** [PowOperation] is among the parents of the two types that [Pow.__new__]
    builds for a base that is an [Operation]. *)
Definition has_PowOperation (t : pow_type) : bool :=
  match t with
  | PowOperationType | PowOperationObservableType => true
  | PowPlain | PowObservableType => false
  end.

(** [isinstance(base, Operation)] and [isinstance(base, Observable)], read off
    the class of the object. *)
Definition class_is_Operation (c : pyclass) : bool :=
  match c with
  | ClsPow t => has_PowOperation t
  | ClsOp c => cls_operation c
  end.

Definition class_is_Observable (c : pyclass) : bool :=
  match c with
  | ClsPow PowOperationObservableType | ClsPow PowObservableType => true
  | ClsPow _ => false
  | ClsOp c => cls_observable c
  end.

Definition class_of (h : list pyobj) (v : value) : option pyclass :=
  match v with
  | VRef r => match h !! r with
              | Some (Instance c _) => Some c
              | _ => None
              end
  | _ => None
  end.

Definition isinstance (h : list pyobj) (v : value) (p : pyclass -> bool) : bool :=
  match class_of h v with
  | Some c => p c
  | None => false
  end.

(** What [pow_class.py] calls but does not define, the interface it consumes:
    [repr] of a float in an f-string, the base's native [pow] hook,
    [pennylane.queuing.apply], the base's [compute_sparse_matrix] called with
    its own hyperparameters, and [**] on the sparse matrices it returns. *)
Class Facade := {
  repr_float : float -> string;
  base_pow : value -> value -> py (list value);
  queuing_apply : value -> py value;
  smatrix : Type;
  base_compute_sparse_matrix : value -> list value -> py smatrix;
  smatrix_pow : smatrix -> Z -> py smatrix
}.

Section Pow.
Context {F : Facade}.

Definition format_number (x : number) : string :=
  match x with
  | NBool b => if b then "True" else "False"
  | NInt n => pretty n
  | NFloat f => repr_float f
  end.

(** [f"{v}"]; the text of an object without a [__str__] of its own is not
    modelled further. *)
Definition format_value (v : value) : string :=
  match v with
  | VNone => "None"
  | VNum x => format_number x
  | VStr s => s
  | VRef _ => "<object>"
  end.

(** [Pow.__new__]: the type is picked by the inheritance of [base]; the three
    mixed types are created once and cached in class variables, so each is one
    class. *)
Definition pick_type (h : list pyobj) (base : value) : pow_type :=
  if isinstance h base class_is_Operation then
    if isinstance h base class_is_Observable
    then PowOperationObservableType
    else PowOperationType
  else if isinstance h base class_is_Observable then PowObservableType
  else PowPlain.

Definition Pow__new__ (base : value) : py value :=
  s <- get_state ;;
  r <- alloc (Instance (ClsPow (pick_type (heap s) base)) ∅) ;;
  ret (VRef r).

(** [Operator.hyperparameters]: the dict kept in [_hyperparameters] (the
    attribute [__copy__] names), created on first use. *)
Definition hyperparameters (self : value) : py value :=
  fun s =>
    match getattr self "_hyperparameters" s with
    | (Raise (AttributeError _), s') =>
        (d <- alloc (PyDict ∅) ;;
         setattr self "_hyperparameters" (VRef d) ;;;
         ret (VRef d)) s'
    | r => r
    end.

(** [Pow.base] and [Pow.z]. *)
Definition base (self : value) : py value :=
  d <- hyperparameters self ;; getitem d "base".

Definition z (self : value) : py value :=
  d <- hyperparameters self ;; getitem d "z".

(** The properties of [Pow] that return the base's attribute of the same
    name, and the two that [PowOperation] adds to them. *)
Definition delegated : list string :=
  ["data"; "_wires"; "parameters"; "num_params"; "wires"; "has_matrix";
   "_queue_category"].

Definition delegated_PowOperation : list string := ["basis"; "control_wires"].

Definition is_delegated (t : pow_type) (name : string) : bool :=
  bool_decide (name ∈ delegated)
  || (has_PowOperation t && bool_decide (name ∈ delegated_PowOperation)).

(** The properties that [pow_class.py] defines without a setter. *)
Definition read_only (t : pow_type) (name : string) : bool :=
  bool_decide (name ∈ ["base"; "z"; "parameters"; "num_params"; "wires";
                       "num_wires"; "has_matrix"; "_queue_category"])
  || (has_PowOperation t
      && bool_decide (name ∈ ["name"; "base_name"; "basis"; "control_wires"])).

(** [len] of a list. *)
Definition len (v : value) : py value :=
  match v with
  | VRef r =>
      o <- deref r ;;
      match o with
      | PyList items => ret (VNum (NInt (Z.of_nat (length items))))
      | _ => raise TypeError
      end
  | _ => raise TypeError
  end.

(** Attribute lookup on an operator, with the properties that [PowOperation]
    and [Pow] define: [inverse] is always [False] on a [PowOperation]; [name]
    and [base_name] read [_name]; [base] and [z] read the hyperparameters;
    the delegated ones are the base's; [num_wires] is the length of [wires].
    Any other name is looked up in the instance. *)
Fixpoint op_getattr (fuel : nat) (v : value) (name : string) : py value :=
  s <- get_state ;;
  match class_of (heap s) v with
  | Some (ClsPow t) =>
      if bool_decide (name = "inverse") && has_PowOperation t then
        ret (VNum (NBool false))
      else if bool_decide (name = "name")
              || (bool_decide (name = "base_name") && has_PowOperation t) then
        getattr v "_name"
      else if bool_decide (name = "base") then base v
      else if bool_decide (name = "z") then z v
      else if is_delegated t name then
        match fuel with
        | O => raise RecursionError
        | S fuel' => b <- base v ;; op_getattr fuel' b name
        end
      else if bool_decide (name = "num_wires") then
        match fuel with
        | O => raise RecursionError
        | S fuel' => w <- op_getattr fuel' v "wires" ;; len w
        end
      else getattr v name
  | Some (ClsOp _) =>
      if bool_decide (name = "name") then getattr v "_name" else getattr v name
  | None => raise (AttributeError name)
  end.

(** Attribute assignment, with the setters of [PowOperation.inverse],
    [Pow.data] and [Pow._wires]; a property without a setter cannot be
    assigned. *)
Fixpoint op_setattr (fuel : nat) (v : value) (name : string) (x : value) : py unit :=
  s <- get_state ;;
  match class_of (heap s) v with
  | Some (ClsPow t) =>
      if bool_decide (name = "inverse") && has_PowOperation t then
        if is_True x
        then raise (NotImplementedError "The inverse can not be set for a power operator")
        else ret tt
      else if bool_decide (name = "data") || bool_decide (name = "_wires") then
        match fuel with
        | O => raise RecursionError
        | S fuel' => b <- base v ;; op_setattr fuel' b name x
        end
      else if read_only t name then raise (AttributeError name)
      else setattr v name x
  | Some (ClsOp _) => setattr v name x
  | None => raise (AttributeError name)
  end.

(** [getattr(obj, name, default)]. *)
Definition getattr_default (fuel : nat) (v : value) (name : string) (default : value)
  : py value :=
  fun s =>
    match op_getattr fuel v name s with
    | (Raise (AttributeError _), s') => (Ret default, s')
    | r => r
    end.

(** The queuing context: nothing is recorded unless a context is active;
    [safe_update_info] updates the metadata of an object that is queued,
    [append] queues an object with its metadata. *)
Definition safe_update_info (obj : ref) (key : string) (x : value) : py unit :=
  s <- get_state ;;
  if recording s then
    set_queue (map (fun e : ref * gmap string value =>
                      if bool_decide (e.1 = obj) then (e.1, <[key:=x]> e.2) else e)
                   (queue s))
  else ret tt.

Definition append (obj : ref) (key : string) (x : value) : py unit :=
  s <- get_state ;;
  if recording s then
    if bool_decide (obj ∈ (queue s).*1) then
      set_queue (map (fun e : ref * gmap string value =>
                        if bool_decide (e.1 = obj) then (e.1, {[key:=x]}) else e)
                     (queue s))
    else set_queue (queue s ++ [(obj, {[key:=x]})])
  else ret tt.

(** [Pow.queue]. *)
Definition Pow_queue (self : value) : py value :=
  b <- base self ;;
  match self, b with
  | VRef rs, VRef rb =>
      safe_update_info rb "owner" self ;;;
      append rs "owns" b ;;;
      ret self
  | _, _ => raise TypeError
  end.

(** [Pow.__init__]. *)
Definition Pow__init__ (self : value) (b : value) (z0 : number) (do_queue : bool)
    (id : value) : py unit :=
  inv <- getattr_default 0 b "inverse" (VNum (NBool false)) ;;
  s <- get_state ;;
  z1 <- (if truthy (heap s) inv
         then op_setattr 0 b "inverse" (VNum (NBool false)) ;;; ret (negate z0)
         else ret z0) ;;
  d <- hyperparameters self ;;
  setitem d "base" b ;;;
  d <- hyperparameters self ;;
  setitem d "z" (VNum z1) ;;;
  setattr self "_id" id ;;;
  setattr self "queue_idx" VNone ;;;
  b' <- base self ;;
  n <- op_getattr 0 b' "name" ;;
  setattr self "_name" (VStr (format_value n ++ "**" ++ format_number z1)) ;;;
  if do_queue then Pow_queue self ;;; ret tt else ret tt.

(** The call [Pow(base, z, do_queue, id)]: [__new__], then [__init__]. *)
Definition Pow (b : value) (z0 : number) (do_queue : bool) (id : value) : py value :=
  self <- Pow__new__ b ;;
  Pow__init__ self b z0 do_queue id ;;;
  ret self.

(** [PowOperation.inverse], getter and setter. *)
Definition get_inverse (self : value) : py value := op_getattr 0 self "inverse".

Definition set_inverse (self : value) (boolean : value) : py unit :=
  op_setattr 0 self "inverse" boolean.

(** [x * -1] for the objects an exponent slot can hold. *)
Definition mul_neg1 (v : value) : py value :=
  match v with
  | VNum x => ret (VNum (negate x))
  | VStr _ => ret (VStr "")
  | _ => raise TypeError
  end.

(** [PowOperation.inv]. *)
Definition inv (self : value) : py value :=
  d <- hyperparameters self ;;
  z0 <- getitem d "z" ;;
  z1 <- mul_neg1 z0 ;;
  setitem d "z" z1 ;;;
  b <- base self ;;
  n <- op_getattr 0 b "name" ;;
  z2 <- z self ;;
  setattr self "_name" (VStr (format_value n ++ "**" ++ format_value z2)) ;;;
  ret self.



(** [Pow.__copy__], over the function [copy] that it calls on the
    hyperparameter dict and on the base. [vars(self)] holds no name that is a
    property of the class ([data], [_wires] and [inverse] are never stored in
    the instance), so every [setattr] of the loop binds in the new
    [__dict__]. *)
Definition Pow__copy__body (copy : value -> py value) (self : value) : py value :=
  match self with
  | VRef r =>
      o <- deref r ;;
      match o with
      | Instance cls attrs =>
          copied <- alloc (Instance cls (delete "_hyperparameters" attrs)) ;;
          let copied_op := VRef copied in
          hp <- getattr self "_hyperparameters" ;;
          hp' <- copy hp ;;
          setattr copied_op "_hyperparameters" hp' ;;;
          b <- base self ;;
          b' <- copy b ;;
          d <- getattr copied_op "_hyperparameters" ;;
          setitem d "base" b' ;;;
          ret copied_op
      | _ => raise TypeError
      end
  | _ => raise TypeError
  end.

(** [copy.copy]: atoms are returned as they are, a dict or a list is copied one
    level deep, a [Pow] is copied by its [__copy__]. [Operator.__copy__] is not
    part of [pow_class.py]; any other operator is copied the way the copy
    protocol copies an instance by default: a new instance of the same class
    whose [__dict__] holds the same bindings. [fuel] bounds the depth of the
    calls, as the interpreter's recursion limit does. *)
Fixpoint copy (fuel : nat) (v : value) : py value :=
  s <- get_state ;;
  match v with
  | VRef r =>
      match heap s !! r with
      | Some (PyDict items) => r' <- alloc (PyDict items) ;; ret (VRef r')
      | Some (PyList items) => r' <- alloc (PyList items) ;; ret (VRef r')
      | Some (Instance (ClsOp c) attrs) =>
          r' <- alloc (Instance (ClsOp c) attrs) ;; ret (VRef r')
      | Some (Instance (ClsPow _) _) =>
          match fuel with
          | O => raise RecursionError
          | S fuel' => Pow__copy__body (copy fuel') v
          end
      | None => raise TypeError
      end
  | _ => ret v
  end.

Definition Pow__copy__ (fuel : nat) (self : value) : py value :=
  Pow__copy__body (copy fuel) self.

(** [obj.__copy__()]: only instances have the method. *)
Definition call__copy__ (fuel : nat) (v : value) : py value :=
  s <- get_state ;;
  match class_of (heap s) v with
  | Some _ => copy fuel v
  | None => raise (AttributeError "__copy__")
  end.

(** [isinstance(v, int)] on a stored value. *)
Definition int_of_value (v : value) : option Z :=
  match v with
  | VNum x => as_int x
  | _ => None
  end.


(** A list comprehension [[e for _ in range(n)]]. *)
Fixpoint comprehension {A} (n : nat) (e : py A) : py (list A) :=
  match n with
  | O => ret []
  | S k => x <- e ;; xs <- comprehension k e ;; ret (x :: xs)
  end.

(** [Pow.decomposition]. The handler reads [self.z] at each of its uses; the
    reads write nothing, and one binding stands for them. *)
Definition decomposition (fuel : nat) (self : value) : py (list value) :=
  fun s =>
    match (b <- base self ;; z0 <- z self ;; base_pow b z0) s with
    | (Raise PowUndefinedError, s') =>
        (z0 <- z self ;;
         match int_of_value z0 with
         | Some n =>
             if Z.ltb 0 n then
               s1 <- get_state ;;
               if recording s1 then
                 comprehension (Z.to_nat n) (b <- base self ;; queuing_apply b)
               else
                 comprehension (Z.to_nat n) (b <- base self ;; call__copy__ fuel b)
             else raise DecompositionUndefinedError
         | None => raise DecompositionUndefinedError
         end) s'
    | r => r
    end.

End Pow.

(** *** Predicates on stores *)

(** One state extends another when it keeps the queuing context and every
    object of the other as it is. *)
Definition extends (s s' : state) : Prop :=
  recording s' = recording s /\ queue s' = queue s
  /\ forall r o, heap s !! r = Some o -> heap s' !! r = Some o.

(** [chain lo h d v]: [v] is an operator under [d] nested [Pow] wrappers, and
    the wrappers, their hyperparameter dicts and the innermost operator all sit
    at positions from [lo] on. *)
Inductive chain (lo : nat) (h : list pyobj) : nat -> value -> Prop :=
| chain_op r c attrs :
    (lo <= r)%nat -> h !! r = Some (Instance (ClsOp c) attrs) ->
    chain lo h 0 (VRef r)
| chain_pow d r t attrs rd items b :
    (lo <= r)%nat -> (lo <= rd)%nat ->
    h !! r = Some (Instance (ClsPow t) attrs) ->
    attrs !! "_hyperparameters" = Some (VRef rd) ->
    h !! rd = Some (PyDict items) ->
    items !! "base" = Some b ->
    chain lo h d b ->
    chain lo h (S d) (VRef r).

(** [copied s v d s' v']: from [s], copying [v] gave [v'] and the state [s'];
    nothing that was there has changed, and the copy, wrappers and innermost
    operator, is made of new objects. *)
Definition copied (s : state) (v : value) (d : nat) (s' : state) (v' : value) : Prop :=
  extends s s'
  /\ chain (length (heap s)) (heap s') d v'
  /\ class_of (heap s') v' = class_of (heap s) v
  /\ (forall r c attrs, v = VRef r -> heap s !! r = Some (Instance (ClsOp c) attrs) ->
        exists r', v' = VRef r' /\ heap s' !! r' = Some (Instance (ClsOp c) attrs)).


(** *** Stores for the examples

    A facade whose base declares no power of its own, whose [apply] returns
    its argument, and whose sparse matrices are one by one, an integer each. *)
Definition example_facade : Facade := {|
  repr_float := fun _ => "<float>";
  base_pow := fun _ _ => raise PowUndefinedError;
  queuing_apply := fun v => ret v;
  smatrix := Z;
  base_compute_sparse_matrix := fun _ _ => ret 2;
  smatrix_pow := fun m n =>
    if Z.ltb n 0 then raise (ValueError "exponent must be >= 0") else ret (m ^ n)
|}.

Definition PauliX_class : op_class := OpClass "PauliX" true true.
Definition RX_class : op_class := OpClass "RX" true false.

(** A PauliX whose inverse flag is set. *)
Definition inverted_PauliX : state :=
  State [Instance (ClsOp PauliX_class)
           (<["_name":=VStr "PauliX"]> (<["inverse":=VNum (NBool true)]> ∅))]
        false [].

(** An RX whose [data] is a list holding one array, of one angle. *)
Definition RX_store : state :=
  State [Instance (ClsOp RX_class)
           (<["_name":=VStr "RX"]>
              (<["inverse":=VNum (NBool false)]> (<["data":=VRef 1%nat]> ∅)));
         PyList [VRef 2%nat];
         PyList [VNum (NFloat 0.5)]]
        false [].

Definition run {A} (m : py A) (s : state) : state := (m s).2.

(** [Pow(PauliX, 2, do_queue=False)] over the inverted PauliX. *)
Definition after_Pow : state :=
  run (Pow (F:=example_facade) (VRef 0%nat) (NInt 2) false VNone) inverted_PauliX.

(** [Pow(RX, 2, do_queue=False)], the operator at position 3, and the store
    after [copy] of it, the copy at position 5. *)
Definition RX_squared : state :=
  run (Pow (F:=example_facade) (VRef 0%nat) (NInt 2) false VNone) RX_store.




(** The [__dict__] of the instance and the items of the dict at a position. *)
Definition attrs_at (s : state) (r : ref) : gmap string value :=
  match heap s !! r with
  | Some (Instance _ attrs) => attrs
  | _ => ∅
  end.

Definition items_at (s : state) (r : ref) : gmap string value :=
  match heap s !! r with
  | Some (PyDict items) => items
  | _ => ∅
  end.

(** *** Wrappers, names and labels *)

(** [nest h d v r0]: [v] is the operator at [r0], which is no [Pow], under [d]
    nested [Pow] wrappers. *)
Inductive nest (h : list pyobj) : nat -> value -> ref -> Prop :=
| nest_op r c attrs :
    h !! r = Some (Instance (ClsOp c) attrs) -> nest h 0 (VRef r) r
| nest_pow d r t attrs rd items b r0 :
    h !! r = Some (Instance (ClsPow t) attrs) ->
    attrs !! "_hyperparameters" = Some (VRef rd) ->
    h !! rd = Some (PyDict items) ->
    items !! "base" = Some b ->
    nest h d b r0 ->
    nest h (S d) (VRef r) r0.

(** What [getattr(base, "inverse", False)] reads on an instance of a class
    with the attributes [attrs]. *)
Definition inverse_flag (c : pyclass) (attrs : gmap string value) : value :=
  match c with
  | ClsPow t =>
      if has_PowOperation t then VNum (NBool false)
      else default (VNum (NBool false)) (attrs !! "inverse")
  | ClsOp _ => default (VNum (NBool false)) (attrs !! "inverse")
  end.

(** A [str] as the sequence of its code points. *)
Definition text := list N.

(** The text of a string of ASCII characters. *)
Definition text_of (s : string) : text := map Ascii.N_of_ascii (String.list_ascii_of_string s).

(** [_superscript = str.maketrans("0123456789.+-", ...)]: the table from the
    code points of the digits, the dot and the signs to those of their
    superscripts (U+2070, U+00B9, U+00B2, U+00B3, U+2074 to U+2079, the dot
    operator U+22C5, U+207A and U+207B). *)
Definition _superscript (c : N) : option N :=
  match c with
  | 48 => Some 0x2070 | 49 => Some 0xB9 | 50 => Some 0xB2 | 51 => Some 0xB3
  | 52 => Some 0x2074 | 53 => Some 0x2075 | 54 => Some 0x2076 | 55 => Some 0x2077
  | 56 => Some 0x2078 | 57 => Some 0x2079
  | 46 => Some 0x22C5 | 43 => Some 0x207A | 45 => Some 0x207B
  | _ => None
  end%N.

(** [str.translate]: a code point that the table maps is replaced, any other
    is kept. *)
Definition translate (table : N -> option N) (t : text) : text :=
  map (fun c => default c (table c)) t.

Section Label.
Context {F : Facade}.

(** [base.label(decimals, base_label, cache=cache)], of the class of the base. *)
Variable label_of_base : value -> value -> value -> value -> py text.

(** [Pow.label]. *)
Definition label (self decimals base_label cache : value) : py text :=
  z0 <- z self ;;
  let z_string := translate _superscript (text_of (format_value z0)) in
  b <- base self ;;
  l <- label_of_base b decimals base_label cache ;;
  ret (l ++ z_string)%list.

End Label.

Section Name.
Context {F : Facade}.

(** The name of a power operator is the text [f"{self.base.name}**{self.z}"]
    of its current base and exponent. *)
Definition name_in_sync (s : state) (self : value) : Prop :=
  exists b n zv,
    base self s = (Ret b, s) /\ op_getattr 0 b "name" s = (Ret n, s)
    /\ z self s = (Ret zv, s)
    /\ op_getattr 0 self "name" s
       = (Ret (VStr (format_value n ++ "**" ++ format_value zv)), s).

(** [isinstance(v, PowOperation)]. *)
Definition class_is_PowOperation (c : pyclass) : bool :=
  match c with
  | ClsPow t => has_PowOperation t
  | ClsOp _ => false
  end.

End Name.

(** The code points of the characters of a decimal numeral: the digits and
    the minus sign. *)
Definition decimal (c : N) : Prop := (48 <= c <= 57)%N \/ c = 45%N.

(** A base whose label is the text RX. *)
Definition RX_label : value -> value -> value -> value -> py text :=
  fun _ _ _ _ => ret (text_of "RX").

End PowClass.

(** ** The commutation rule engine *)

Module Commutation.

(** A wire label: an integer or a string. *)
Inductive wire :=
| WInt (n : Z)
| WStr (s : string).

Global Instance wire_eq_dec : EqDecision wire.
Proof. solve_decision. Defined.

(** A rotation angle, kept exact: [pi_part * pi + rad_part] radians with
    rational coefficients. The tolerance of the floating-point comparisons is
    not part of the model. *)
Record angle := Angle {
  pi_part : Qc;
  rad_part : Qc
}.

Global Instance angle_eq_dec : EqDecision angle.
Proof. solve_decision. Defined.

Definition angle_add (a b : angle) : angle :=
  Angle (pi_part a + pi_part b)%Qc (rad_part a + rad_part b)%Qc.

Definition is_integer (x : Qc) : bool := Pos.eqb (Qden (this x)) 1.

(** [a = b] modulo [2 pi]; pi is irrational, so the rational parts must agree
    and the multiples of pi differ by an even integer. *)
Definition angle_equiv (a b : angle) : bool :=
  bool_decide (rad_part a = rad_part b)
  && is_integer ((pi_part a - pi_part b) / Qc_of_Z 2)%Qc.

Definition zero_angle (a : angle) : bool := angle_equiv a (Angle 0%Qc 0%Qc).

(** An operator as the engine reads it (spec, section 3): its kind, its
    ordered wires, its numeric parameters and, for an operation built by
    [ctrl], the operations placed under the control, each with its wires. *)
Record operator := Operator {
  name : string;
  wires : list wire;
  parameters : list angle;
  targets : list (string * list wire)
}.

Global Instance operator_eq_dec : EqDecision operator.
Proof. solve_decision. Defined.

Inductive error :=
| UnsupportedOperationError (msg : string)
| ValueError (msg : string)
| IndexError.

Inductive result (A : Type) :=
| Ok (a : A)
| Err (e : error).
Arguments Ok {A} a.
Arguments Err {A} e.

(** The recognized gate vocabulary, entry by entry: the kinds that
    [test_commutation_dag.py] passes to the engine and the fixed gates the
    rotation family folds to. *)
Inductive gate :=
| Identity | Hadamard | PauliX | PauliY | PauliZ
| PhaseShift | RX | RY | RZ | Rot | U2 | U3
| CNOT | CY | CZ | SWAP | CSWAP | Toffoli | MultiControlledX
| CRX | CRY | CRZ | CRot | ControlledPhaseShift
| ControlledOperation | Barrier | QFT.

Global Instance gate_eq_dec : EqDecision gate.
Proof. solve_decision. Defined.

Definition vocabulary : list (string * gate) :=
  [("Identity", Identity); ("Hadamard", Hadamard); ("PauliX", PauliX);
   ("PauliY", PauliY); ("PauliZ", PauliZ); ("PhaseShift", PhaseShift);
   ("RX", RX); ("RY", RY); ("RZ", RZ); ("Rot", Rot); ("U2", U2); ("U3", U3);
   ("CNOT", CNOT); ("CY", CY); ("CZ", CZ); ("SWAP", SWAP); ("CSWAP", CSWAP);
   ("Toffoli", Toffoli); ("MultiControlledX", MultiControlledX);
   ("CRX", CRX); ("CRY", CRY); ("CRZ", CRZ); ("CRot", CRot);
   ("ControlledPhaseShift", ControlledPhaseShift);
   ("ControlledOperation", ControlledOperation); ("Barrier", Barrier);
   ("QFT", QFT)].

Fixpoint assoc {A} (key : string) (l : list (string * A)) : option A :=
  match l with
  | [] => None
  | (k, a) :: rest => if String.eqb key k then Some a else assoc key rest
  end.

Definition gate_of (op : operator) : option gate := assoc (name op) vocabulary.

(** The parametrized rotations that are the identity when every angle is a
    multiple of [2 pi]. [U2] is not among them: at zero angles it is a quarter
    turn about Y ([test_u2_y_simplified]). *)
Definition rotation_family (g : gate) : bool :=
  match g with
  | PhaseShift | RX | RY | RZ | Rot | U3
  | CRX | CRY | CRZ | CRot | ControlledPhaseShift => true
  | _ => false
  end.

Definition identity_equivalent (op : operator) : bool :=
  match gate_of op with
  | Some g => rotation_family g && forallb zero_angle (parameters op)
  | None => false
  end.

(** A barrier-type marker: an ordering fence. *)
Definition is_fence (op : operator) : bool :=
  bool_decide (gate_of op = Some Barrier).

(** The wires that the operations under the control of [op] act on. *)
Definition target_wires (op : operator) : list wire :=
  remove_dups (concat (map snd (targets op))).

(** A multi-target controlled operation: one that acts on more than one
    target wire, or that has more than one operation under its control
    even on one wire; [test_operation_1_multiple_targets] puts PauliZ and
    PauliY, both on wire 2, under one control. *)
Definition multi_target (op : operator) : bool :=
  bool_decide (gate_of op = Some ControlledOperation)
  && (Nat.ltb 1 (length (target_wires op)) || Nat.ltb 1 (length (targets op))).

Definition shared_wires (ws1 ws2 : list wire) : list wire :=
  filter (fun w => w ∈ ws2) ws1.

Definition disjoint_wires (ws1 ws2 : list wire) : bool :=
  bool_decide (shared_wires ws1 ws2 = []).


(** Modelled from the spec: the data of the rule engine that
    [pennylane/transforms/commutation_dag.py] (missing) holds. [canonical] is
    step 3, folding a rotation at trivial angles to its simplest equivalent
    gate; [lookup] is the static table of step 4, which the spec requires to be
    pairwise-consistent; [matrices_commute] is the numeric commutator test of
    step 5, the same test for either order of the product. *)
Class Rules := {
  canonical : operator -> operator;
  lookup : operator -> operator -> option bool;
  lookup_consistent : forall a b, lookup a b = lookup b a;
  matrices_commute : operator -> operator -> bool;
  matrices_commute_sym : forall a b, matrices_commute a b = matrices_commute b a
}.

Section Engine.
Context {R : Rules}.

(** Modelled from the spec: the decision procedure of section 4.1 of the
    missing [commutation_dag.py], its steps in order, each ending the decision
    when it applies. Step 2 compares the whole operator, parameters included:
    [test_u2_u2] has two U2 gates of different angles on one wire that do not
    commute. The edge-case policy sits between steps 2 and 3, the fence before
    the zero angles: U3(0, 0, 0) and a Barrier on one wire do not commute
    ([test_u3_identity_barrier]). *)
Definition decide_commutation (op1 op2 : operator) : bool :=
  if disjoint_wires (wires op1) (wires op2) then true
  else if bool_decide (op1 = op2) then true
  else if is_fence op1 || is_fence op2 then false
  else if identity_equivalent op1 || identity_equivalent op2 then true
  else
    match lookup (canonical op1) (canonical op2) with
    | Some b => b
    | None => matrices_commute (canonical op1) (canonical op2)
    end.

(** Modelled from the spec: the rejection of a kind outside the vocabulary by
    the missing [commutation_dag.py], with the message that
    [test_operation_1_not_supported] matches. *)
Definition check_supported (op : operator) : result unit :=
  match gate_of op with
  | Some _ => Ok tt
  | None => Err (UnsupportedOperationError ("Operation " ++ name op ++ " not supported."))
  end.

(** Modelled from the spec: the rejection of a multi-target controlled
    operation by the missing [commutation_dag.py], with the message that
    [test_operation_1_multiple_targets] matches. *)
Definition check_targets (op : operator) : result unit :=
  if multi_target op
  then Err (UnsupportedOperationError "MultipleTargets controlled is not supported.")
  else Ok tt.

(** Modelled from the spec: [commutes(op1, op2)], the entry point of the rule
    engine in the missing [commutation_dag.py] ([qml.is_commuting] in the
    tests): both operators are checked, the first one first, before any rule is
    tried. *)
Definition commutes (op1 op2 : operator) : result bool :=
  match check_supported op1 with
  | Err e => Err e
  | Ok _ =>
      match check_supported op2 with
      | Err e => Err e
      | Ok _ =>
          match check_targets op1 with
          | Err e => Err e
          | Ok _ =>
              match check_targets op2 with
              | Err e => Err e
              | Ok _ => Ok (decide_commutation op1 op2)
              end
          end
      end
  end.

End Engine.

(** *** The entries that the tests pin down

    One instance of the rule data: a table that reads, for each shared wire,
    the axis along which each gate acts there, and the folding of Rot, U2, U3
    and CRot at the angles of the tests. *)

Inductive basis :=
| BI      (* acts as the identity *)
| BX | BY | BZ | BH
| BNone.  (* no single axis *)

Global Instance basis_eq_dec : EqDecision basis.
Proof. solve_decision. Defined.

Fixpoint index_of (w : wire) (ws : list wire) : option nat :=
  match ws with
  | [] => None
  | w' :: rest => if bool_decide (w = w') then Some O else S <$> index_of w rest
  end.

(** The axis of a gate of [n] wires on its wire number [i]: a control acts
    along Z, the target along the axis of the controlled gate. *)
Definition position_basis (g : gate) (n i : nat) : basis :=
  let last := Nat.eqb (S i) n in
  match g with
  | Identity => BI
  | Hadamard => BH
  | PauliX | RX => BX
  | PauliY | RY => BY
  | PauliZ | RZ | PhaseShift => BZ
  | Rot | U2 | U3 | SWAP | QFT | Barrier => BNone
  | CNOT | Toffoli | MultiControlledX | CRX => if last then BX else BZ
  | CY | CRY => if last then BY else BZ
  | CZ | CRZ | ControlledPhaseShift => BZ
  | CRot => if last then BNone else BZ
  | CSWAP => if Nat.eqb i 0 then BZ else BNone
  | ControlledOperation => BZ
  end.

Definition wire_basis (op : operator) (w : wire) : basis :=
  match gate_of op, index_of w (wires op) with
  | Some ControlledOperation, Some _ =>
      match targets op with
      | [(k, tws)] =>
          match assoc k vocabulary, index_of w tws with
          | Some g, Some i => position_basis g (length tws) i
          | None, Some _ => BNone
          | _, None => BZ
          end
      | _ => BNone
      end
  | Some g, Some i => position_basis g (length (wires op)) i
  | _, _ => BI
  end.

Definition compatible (b1 b2 : basis) : bool :=
  match b1, b2 with
  | BI, _ | _, BI => true
  | BNone, _ | _, BNone => false
  | _, _ => bool_decide (b1 = b2)
  end.

Definition undetermined (b1 b2 : basis) : bool :=
  match b1, b2 with
  | BI, _ | _, BI => false
  | BNone, _ | _, BNone => true
  | _, _ => false
  end.

(** The table: no entry when some shared wire carries a gate without an
    axis; otherwise the gates commute when their axes agree on every shared
    wire. *)
Definition test_lookup (a b : operator) : option bool :=
  let shared := shared_wires (wires a) (wires b) in
  if existsb (fun w => undetermined (wire_basis a w) (wire_basis b w)) shared
  then None
  else Some (forallb (fun w => compatible (wire_basis a w) (wire_basis b w)) shared).

(** No pair of the tests that reaches the commutator test commutes. *)
Definition test_matrices_commute (a b : operator) : bool := false.

Definition half_pi : angle := Angle (Qc_of_Z 1 / Qc_of_Z 2)%Qc 0%Qc.
Definition minus_half_pi : angle := Angle (Qc_of_Z (-1) / Qc_of_Z 2)%Qc 0%Qc.
Definition pi : angle := Angle (Qc_of_Z 1) 0%Qc.

Definition with_gate (op : operator) (nm : string) (ps : list angle) : operator :=
  Operator nm (wires op) ps (targets op).

(** The folding of the rotation family at the angles of the tests
    ([test_rot_*_simplified], [test_crot_*_simplified], [test_u2_*_simplified],
    [test_u3_simplified_*]); any other operator is left as it is. *)
Definition test_canonical (op : operator) : operator :=
  match gate_of op, parameters op with
  | Some Rot, [phi; theta; omega] =>
      if zero_angle theta then with_gate op "RZ" [angle_add phi omega]
      else if angle_equiv phi half_pi && angle_equiv omega minus_half_pi
      then with_gate op "RX" [theta]
      else if zero_angle phi && zero_angle omega then with_gate op "RY" [theta]
      else if angle_equiv phi pi && angle_equiv theta half_pi && zero_angle omega
      then with_gate op "Hadamard" []
      else op
  | Some CRot, [phi; theta; omega] =>
      if zero_angle theta then with_gate op "CRZ" [angle_add phi omega]
      else if angle_equiv phi half_pi && angle_equiv omega minus_half_pi
      then with_gate op "CRX" [theta]
      else if zero_angle phi && zero_angle omega then with_gate op "CRY" [theta]
      else if angle_equiv phi pi && angle_equiv theta half_pi && zero_angle omega
      then Operator "ControlledOperation" (wires op) []
             [("Hadamard", drop 1 (wires op))]
      else op
  | Some U2, [phi; lam] =>
      if zero_angle phi && zero_angle lam then with_gate op "RY" [half_pi]
      else if angle_equiv phi half_pi && angle_equiv lam minus_half_pi
      then with_gate op "RX" [half_pi]
      else op
  | Some U3, [theta; phi; lam] =>
      if zero_angle theta then with_gate op "PhaseShift" [angle_add phi lam]
      else if zero_angle phi && zero_angle lam then with_gate op "RY" [theta]
      else if angle_equiv phi minus_half_pi && angle_equiv lam half_pi
      then with_gate op "RX" [theta]
      else op
  | _, _ => op
  end.

(** The operators of the tests: [q a b] is the fraction a/b, [rad] an angle
    in radians, [pis] a multiple of pi; [gate_on] is a gate on integer wires and
    [ctrl] the operation that [qml.transforms.ctrl] builds. *)
Definition q (a b : Z) : Qc := (Qc_of_Z a / Qc_of_Z b)%Qc.
Definition rad (a b : Z) : angle := Angle 0%Qc (q a b).
Definition pis (a b : Z) : angle := Angle (q a b) 0%Qc.

Definition gate_on (nm : string) (ps : list angle) (ws : list Z) : operator :=
  Operator nm (map WInt ws) ps [].

Definition ctrl (tgts : list (string * list Z)) (control : list Z) : operator :=
  Operator "ControlledOperation" (map WInt (control ++ concat (map snd tgts))) []
           (map (fun t : string * list Z => (t.1, map WInt t.2)) tgts).


End Commutation.

(** ** The commutation DAG *)

Module DAG.
Import Commutation.

(** A node: an operator occurrence, its index in insertion order, and the
    memoized transitive successor and predecessor sets, as sorted lists. *)
Record node := Node {
  op : operator;
  node_id : nat;
  successors : list nat;
  predecessors : list nat
}.

(** The DAG: nodes by index, edges (each with the attribute commute = False)
    in insertion order, the side list of observables, and for each wire the
    most recent node that touches it. *)
Record dag := Dag {
  nodes : list node;
  edges : list (nat * nat);
  observables : list operator;
  frontier : list (wire * nat)
}.

Definition empty : dag := Dag [] [] [] [].

(** Index sets are kept as ascending lists without repetition. *)
Fixpoint insert_sorted (x : nat) (l : list nat) : list nat :=
  match l with
  | [] => [x]
  | y :: rest =>
      if Nat.ltb x y then x :: l
      else if Nat.eqb x y then l
      else y :: insert_sorted x rest
  end.

Definition sort_nodup (l : list nat) : list nat := foldr insert_sorted [] l.

Definition predecessors_of (ns : list node) (i : nat) : list nat :=
  match ns !! i with
  | Some n => predecessors n
  | None => []
  end.

Definition successors_of (ns : list node) (i : nat) : list nat :=
  match ns !! i with
  | Some n => successors n
  | None => []
  end.

Fixpoint advance (fr : list (wire * nat)) (w : wire) (k : nat) : list (wire * nat) :=
  match fr with
  | [] => [(w, k)]
  | (w', i) :: rest =>
      if bool_decide (w = w') then (w, k) :: rest else (w', i) :: advance rest w k
  end.

Section Builder.
Context {R : Rules}.

(** Modelled from the spec: the comparison loop of the builder of the missing
    [commutation_dag.py] (section 4.2). The earlier nodes are visited from the
    latest to the earliest; a node already ordered before a linked node (one of
    its transitive predecessors) is dominated and is not compared; a node that
    shares a wire with the new operator is put to the rule engine, and a
    failure of the engine ends the build. The result lists the nodes that get
    an edge to the new node, in ascending order. *)
Fixpoint scan (new : operator) (earlier : list node) (dominated linked : list nat)
  : result (list nat) :=
  match earlier with
  | [] => Ok linked
  | n :: rest =>
      if bool_decide (node_id n ∈ dominated) then scan new rest dominated linked
      else if disjoint_wires (wires (op n)) (wires new) then scan new rest dominated linked
      else
        match commutes (op n) new with
        | Err e => Err e
        | Ok true => scan new rest dominated linked
        | Ok false => scan new rest (predecessors n ++ dominated) (node_id n :: linked)
        end
  end.

(** Modelled from the spec: insertion of one operator by the builder of the
    missing [commutation_dag.py]: the operator gets the next index, an edge
    from every node the comparison loop links, and its transitive predecessor
    set; the frontier of each of its wires moves to it. *)
Definition add_node (d : dag) (new : operator) : result dag :=
  let k := length (nodes d) in
  match scan new (rev (nodes d)) [] [] with
  | Err e => Err e
  | Ok linked =>
      let preds :=
        sort_nodup (linked ++ concat (map (predecessors_of (nodes d)) linked)) in
      Ok (Dag (nodes d ++ [Node new k [] preds])
              (edges d ++ map (fun i => (i, k)) linked)
              (observables d)
              (foldl (fun fr w => advance fr w k) (frontier d) (wires new)))
  end.

(** Modelled from the spec: the loop of the builder of the missing
    [commutation_dag.py] over the operator sequence; the first failure of the
    rule engine ends it. *)
Fixpoint add_nodes (d : dag) (ops : list operator) : result dag :=
  match ops with
  | [] => Ok d
  | o :: rest =>
      match add_node d o with
      | Err e => Err e
      | Ok d' => add_nodes d' rest
      end
  end.

End Builder.

(** Modelled from the spec: the direct relations of the query layer of the
    missing [commutation_dag.py], in ascending order of index. *)
Definition direct_successors_of (es : list (nat * nat)) (i : nat) : list nat :=
  sort_nodup (map snd (filter (fun e => e.1 = i) es)).

Definition direct_predecessors_of (es : list (nat * nat)) (j : nat) : list nat :=
  sort_nodup (map fst (filter (fun e => e.2 = j) es)).

Definition set_successors (n : node) (l : list nat) : node :=
  Node (op n) (node_id n) l (predecessors n).

(** Modelled from the spec: the transitive successor sets of the missing
    [commutation_dag.py], memoized once every operator is inserted, from the
    last node back to the first: the direct successors and all of theirs. *)
Definition add_successors (es : list (nat * nat)) (ns : list node) : list node :=
  foldl (fun acc i =>
           let direct := direct_successors_of es i in
           alter (fun n => set_successors n
                    (sort_nodup (direct ++ concat (map (successors_of acc) direct))))
                 i acc)
        ns (rev (seq 0 (length ns))).

(** The tests compare the nodes with operators on consecutive integer wires:
    the wires of the circuit are renumbered in order of first appearance
    ([test_dag_transform_simple_dag_function_custom_wire],
    [test_dag_pattern]). *)
Fixpoint first_appearance (ws seen : list wire) : list wire :=
  match ws with
  | [] => seen
  | w :: rest =>
      if bool_decide (w ∈ seen) then first_appearance rest seen
      else first_appearance rest (seen ++ [w])
  end.

Definition relabel_wire (order : list wire) (w : wire) : wire :=
  match index_of w order with
  | Some i => WInt (Z.of_nat i)
  | None => w
  end.

Definition relabel (order : list wire) (o : operator) : operator :=
  Operator (name o) (map (relabel_wire order) (wires o)) (parameters o)
           (map (fun t : string * list wire => (t.1, map (relabel_wire order) t.2))
                (targets o)).

Section Build.
Context {R : Rules}.

(** Modelled from the spec: [build(operator_sequence, observable_sequence)],
    the entry point of the builder of the missing [commutation_dag.py]
    (sections 4.2 and 6): the operators are inserted in order, the observables
    are recorded in the side list and take no part in the graph. *)
Definition build (ops obs : list operator) : result dag :=
  let order := first_appearance (concat (map wires (ops ++ obs))) [] in
  match add_nodes empty (map (relabel order) ops) with
  | Err e => Err e
  | Ok d =>
      Ok (Dag (add_successors (edges d) (nodes d)) (edges d)
              (map (relabel order) obs) (frontier d))
  end.

(** What the transform is applied to. *)
Inductive circuit :=
| Tape (ops obs : list operator)
| QNode (ops obs : list operator)
| QuantumFunction (ops obs : list operator)
| NotACircuit.

(** Modelled from the spec: the transform [qml.transforms.commutation_dag] of
    the missing [commutation_dag.py], as the tests call it. A callable that
    queues no operation is refused ([test_dag_wrong_function]), and so is an
    input that is no circuit ([test_dag_invalid_argument]); a tape or a QNode
    goes to the builder as it is. *)
Definition commutation_dag (c : circuit) : result dag :=
  match c with
  | Tape ops obs | QNode ops obs => build ops obs
  | QuantumFunction ops obs =>
      match ops with
      | [] => Err (ValueError "Function contains no quantum operation")
      | _ => build ops obs
      end
  | NotACircuit => Err (ValueError "Input is not a tape, QNode, or quantum function")
  end.

End Build.

(** Modelled from the spec: the query layer of the missing
    [commutation_dag.py] (section 4.3), failing with [IndexError] on an index
    that names no node. *)
Definition get_node (d : dag) (i : nat) : result node :=
  match nodes d !! i with
  | Some n => Ok n
  | None => Err IndexError
  end.

Definition direct_successors (d : dag) (i : nat) : result (list nat) :=
  match nodes d !! i with
  | Some _ => Ok (direct_successors_of (edges d) i)
  | None => Err IndexError
  end.

Definition direct_predecessors (d : dag) (i : nat) : result (list nat) :=
  match nodes d !! i with
  | Some _ => Ok (direct_predecessors_of (edges d) i)
  | None => Err IndexError
  end.

Definition get_successors (d : dag) (i : nat) : result (list nat) :=
  match nodes d !! i with
  | Some n => Ok (successors n)
  | None => Err IndexError
  end.

Definition get_predecessors (d : dag) (i : nat) : result (list nat) :=
  match nodes d !! i with
  | Some n => Ok (predecessors n)
  | None => Err IndexError
  end.

(** Modelled from the spec: [get_edge(i, j)] of the missing
    [commutation_dag.py]: the attribute commute = False of the edge, or the
    absent value; the tests ask for an edge to an index without a node and get
    the absent value ([dag.get_edge(0, 2) is None]). *)
Definition get_edge (d : dag) (i j : nat) : option bool :=
  if bool_decide ((i, j) ∈ edges d) then Some false else None.

(** Modelled from the spec: [get_edges()] of the missing
    [commutation_dag.py]; [test_dag_pattern] lists the edges grouped by source
    node. *)
Definition get_edges (d : dag) : list (nat * nat * bool) :=
  concat (map (fun i => map (fun e : nat * nat => (e.1, e.2, false))
                            (filter (fun e => e.1 = i) (edges d)))
              (seq 0 (length (nodes d)))).

(** Reachability along the edges: the relation whose memo the transitive
    sets are. *)
Inductive path (es : list (nat * nat)) : nat -> nat -> Prop :=
| path_edge i j : (i, j) ∈ es -> path es i j
| path_step i j k : (i, j) ∈ es -> path es j k -> path es i k.

(** The builder keeps the nodes numbered by position, every edge going from
    an index to a strictly later one of a node, and every memoized set within
    reach along the edges. *)
Record well_formed (d : dag) : Prop := WellFormed {
  wf_ids : forall i n, nodes d !! i = Some n -> node_id n = i;
  wf_edges : forall i j, (i, j) ∈ edges d -> (i < j < length (nodes d))%nat;
  wf_predecessors :
    forall i n p, nodes d !! i = Some n -> p ∈ predecessors n -> path (edges d) p i;
  wf_successors :
    forall i n j, nodes d !! i = Some n -> j ∈ successors n -> path (edges d) i j
}.

(** The memoized predecessor sets hold every node that reaches the node. *)
Definition predecessors_complete (d : dag) : Prop :=
  forall i n p, nodes d !! i = Some n -> path (edges d) p i -> p ∈ predecessors n.

(** The memoized successor sets of the nodes from index [m] on hold every node
    that the node reaches. *)
Definition successors_complete_from (es : list (nat * nat)) (acc : list node) (m : nat) : Prop :=
  forall i n j, (m <= i)%nat -> acc !! i = Some n -> path es i j -> j ∈ successors n.

End DAG.

(** ** test_mitigate.py *)

Module Mitigate.

(** What a test does: it passes, an [assert] fails, or a call it makes
    raises. *)
Inductive outcome :=
| Passes
| AssertionError
| Raises.

(** [assert all(f(a, b) for a, b in zip(l1, l2))]: the pairs are taken while
    both lists last, and [all] stops at the first that is false. *)
Fixpoint assert_all {A} (f : A -> A -> option bool) (l1 l2 : list A) : outcome :=
  match l1, l2 with
  | a :: l1', b :: l2' =>
      match f a b with
      | Some true => assert_all f l1' l2'
      | Some false => AssertionError
      | None => Raises
      end
  | _, _ => Passes
  end.

(** Statements in sequence: the first failure ends the function. *)
Definition and_then (o k : outcome) : outcome :=
  match o with
  | Passes => k
  | _ => o
  end.

Section SameTape.
(** The parameters and the wires of an operator, the return type of a
    measurement, and [np.allclose] on two parameter sequences, which raises
    when their shapes do not match. *)
Variables (P W R : Type).
Context `{EqDecision W} `{EqDecision R}.
Variable allclose : P -> P -> option bool.

Record operator := Operator {
  name : string;
  wires : W;
  parameters : P
}.

Record measurement := Measurement { return_type : R }.

(** The attributes of a tape that [same_tape] reads. *)
Record tape := Tape {
  operations : list operator;
  measurements : list measurement;
  observables : list operator
}.

(** [same_tape]. *)
Definition same_tape (tape1 tape2 : tape) : outcome :=
  and_then (assert_all (fun o1 o2 => Some (bool_decide (name o1 = name o2)))
              (operations tape1) (operations tape2))
  (and_then (assert_all (fun o1 o2 => Some (bool_decide (wires o1 = wires o2)))
              (operations tape1) (operations tape2))
  (and_then (assert_all (fun o1 o2 => allclose (parameters o1) (parameters o2))
              (operations tape1) (operations tape2))
  (and_then (if bool_decide (length (measurements tape1) = length (measurements tape2))
             then Passes else AssertionError)
  (and_then (assert_all (fun m1 m2 => Some (bool_decide (return_type m1 = return_type m2)))
              (measurements tape1) (measurements tape2))
  (and_then (assert_all (fun o1 o2 => Some (bool_decide (name o1 = name o2)))
              (observables tape1) (observables tape2))
            (assert_all (fun o1 o2 => Some (bool_decide (wires o1 = wires o2)))
              (observables tape1) (observables tape2))))))).

End SameTape.

Arguments Operator {P W}.
Arguments name {P W}.
Arguments wires {P W}.
Arguments parameters {P W}.
Arguments Measurement {R}.
Arguments return_type {R}.
Arguments Tape {P W R}.
Arguments operations {P W R}.
Arguments measurements {P W R}.
Arguments observables {P W R}.
Arguments same_tape {P W R _ _}.

(** [packaging.version.Version]: the release numbers that the fixture reads. *)
Record version := Version {
  major : nat;
  minor : nat;
  micro : nat
}.

Inductive fixture :=
| Runs
| Skips (reason : string).

(** [skip_if_no_mitiq_support]; [mitiq] is the version of the installed
    package, if it can be imported. *)
Definition skip_if_no_mitiq_support (mitiq : option version) : fixture :=
  match mitiq with
  | Some v =>
      let t := Version 0 11 0 in
      if Nat.ltb (major v) (major t) && Nat.ltb (minor v) (minor t)
      then Skips "Mitiq version too low"
      else Runs
  | None => Skips "Mitiq not available"
  end.

End Mitigate.

(** * Proofs *)

(** ** The power operator *)

Module PowFacts.
Import Py PowClass.

Section Store.
Implicit Types (s : state) (r : ref) (v x : value) (o : pyobj).

Lemma bind_ret {A B} (m : py A) (k : A -> py B) s a s' :
  m s = (Ret a, s') -> bind m k s = k a s'.
Proof. intros H. unfold bind. by rewrite H. Qed.

Lemma bind_raise {A B} (m : py A) (k : A -> py B) s e s' :
  m s = (Raise e, s') -> bind m k s = (Raise e, s').
Proof. intros H. unfold bind. by rewrite H. Qed.

Lemma deref_ok s r o : heap s !! r = Some o -> deref r s = (Ret o, s).
Proof. intros H. unfold deref. by rewrite H. Qed.

Lemma getattr_ok s r c attrs name x :
  heap s !! r = Some (Instance c attrs) -> attrs !! name = Some x ->
  getattr (VRef r) name s = (Ret x, s).
Proof.
  intros H1 H2. unfold getattr. rewrite (bind_ret _ _ _ _ _ (deref_ok _ _ _ H1)).
  by rewrite H2.
Qed.

Lemma getattr_missing s r c attrs name :
  heap s !! r = Some (Instance c attrs) -> attrs !! name = None ->
  getattr (VRef r) name s = (Raise (AttributeError name), s).
Proof.
  intros H1 H2. unfold getattr. rewrite (bind_ret _ _ _ _ _ (deref_ok _ _ _ H1)).
  by rewrite H2.
Qed.

Lemma setattr_ok s r c attrs name x :
  heap s !! r = Some (Instance c attrs) ->
  setattr (VRef r) name x s
  = (Ret tt, State (<[r:=Instance c (<[name:=x]> attrs)]> (heap s)) (recording s) (queue s)).
Proof.
  intros H1. unfold setattr. by rewrite (bind_ret _ _ _ _ _ (deref_ok _ _ _ H1)).
Qed.

Lemma getitem_ok s r items key x :
  heap s !! r = Some (PyDict items) -> items !! key = Some x ->
  getitem (VRef r) key s = (Ret x, s).
Proof.
  intros H1 H2. unfold getitem. rewrite (bind_ret _ _ _ _ _ (deref_ok _ _ _ H1)).
  by rewrite H2.
Qed.

Lemma setitem_ok s r items key x :
  heap s !! r = Some (PyDict items) ->
  setitem (VRef r) key x s
  = (Ret tt, State (<[r:=PyDict (<[key:=x]> items)]> (heap s)) (recording s) (queue s)).
Proof.
  intros H1. unfold setitem. by rewrite (bind_ret _ _ _ _ _ (deref_ok _ _ _ H1)).
Qed.

Lemma get_state_ok s : get_state s = (Ret s, s).
Proof. done. Qed.

Lemma class_of_instance h r c attrs :
  h !! r = Some (Instance c attrs) -> class_of h (VRef r) = Some c.
Proof. intros H. simpl. by rewrite H. Qed.

Lemma class_of_inv h v c :
  class_of h v = Some c -> exists r attrs, v = VRef r /\ h !! r = Some (Instance c attrs).
Proof.
  destruct v as [| | |r]; simpl; try done.
  destruct (h !! r) as [[c' attrs| |]|] eqn:E; try done.
  intros [= <-]. eauto.
Qed.

End Store.

Section Access.
Context {F : Facade}.

Lemma hyperparameters_ok s r c attrs d :
  heap s !! r = Some (Instance c attrs) -> attrs !! "_hyperparameters" = Some d ->
  hyperparameters (VRef r) s = (Ret d, s).
Proof. intros H1 H2. unfold hyperparameters. by rewrite (getattr_ok _ _ _ _ _ _ H1 H2). Qed.

Lemma base_ok s r c attrs rd items b :
  heap s !! r = Some (Instance c attrs) -> attrs !! "_hyperparameters" = Some (VRef rd) ->
  heap s !! rd = Some (PyDict items) -> items !! "base" = Some b ->
  base (VRef r) s = (Ret b, s).
Proof.
  intros H1 H2 H3 H4. unfold base.
  rewrite (bind_ret _ _ _ _ _ (hyperparameters_ok _ _ _ _ _ H1 H2)).
  by apply getitem_ok with items.
Qed.

Lemma z_ok s r c attrs rd items x :
  heap s !! r = Some (Instance c attrs) -> attrs !! "_hyperparameters" = Some (VRef rd) ->
  heap s !! rd = Some (PyDict items) -> items !! "z" = Some x ->
  z (VRef r) s = (Ret x, s).
Proof.
  intros H1 H2 H3 H4. unfold z.
  rewrite (bind_ret _ _ _ _ _ (hyperparameters_ok _ _ _ _ _ H1 H2)).
  by apply getitem_ok with items.
Qed.

Lemma pick_type_Operation h b :
  isinstance h b class_is_Operation = true -> has_PowOperation (pick_type h b) = true.
Proof. unfold pick_type. intros ->. by destruct (isinstance h b class_is_Observable). Qed.

Lemma op_getattr_eq fuel v name s :
  op_getattr fuel v name s
  = match class_of (heap s) v with
    | Some (ClsPow t) =>
        if bool_decide (name = "inverse") && has_PowOperation t then
          (Ret (VNum (NBool false)), s)
        else if bool_decide (name = "name")
                || (bool_decide (name = "base_name") && has_PowOperation t) then
          getattr v "_name" s
        else if bool_decide (name = "base") then base v s
        else if bool_decide (name = "z") then z v s
        else if is_delegated t name then
          match fuel with
          | O => (Raise RecursionError, s)
          | S fuel' => bind (base v) (fun b => op_getattr fuel' b name) s
          end
        else if bool_decide (name = "num_wires") then
          match fuel with
          | O => (Raise RecursionError, s)
          | S fuel' => bind (op_getattr fuel' v "wires") len s
          end
        else getattr v name s
    | Some (ClsOp _) =>
        if bool_decide (name = "name") then getattr v "_name" s else getattr v name s
    | None => (Raise (AttributeError name), s)
    end.
Proof.
  destruct fuel; simpl; unfold bind at 1; simpl;
    destruct (class_of (heap s) v) as [[t|c]|]; try done;
    repeat (match goal with |- context [if ?b then _ else _] => destruct b end; try done).
Qed.

Lemma op_setattr_eq fuel v name x s :
  op_setattr fuel v name x s
  = match class_of (heap s) v with
    | Some (ClsPow t) =>
        if bool_decide (name = "inverse") && has_PowOperation t then
          if is_True x
          then (Raise (NotImplementedError "The inverse can not be set for a power operator"), s)
          else (Ret tt, s)
        else if bool_decide (name = "data") || bool_decide (name = "_wires") then
          match fuel with
          | O => (Raise RecursionError, s)
          | S fuel' => bind (base v) (fun b => op_setattr fuel' b name x) s
          end
        else if read_only t name then (Raise (AttributeError name), s)
        else setattr v name x s
    | Some (ClsOp _) => setattr v name x s
    | None => (Raise (AttributeError name), s)
    end.
Proof.
  destruct fuel; simpl; unfold bind at 1; simpl;
    destruct (class_of (heap s) v) as [[t|c]|]; try done;
    repeat (match goal with |- context [if ?b then _ else _] => destruct b end; try done).
Qed.

Lemma op_getattr_name s fuel r c attrs nm :
  heap s !! r = Some (Instance c attrs) -> attrs !! "_name" = Some nm ->
  op_getattr fuel (VRef r) "name" s = (Ret nm, s).
Proof.
  intros H1 H2. rewrite op_getattr_eq, (class_of_instance _ _ _ _ H1).
  destruct c; simpl; by eapply getattr_ok.
Qed.

Lemma get_inverse_PowOperation s self t :
  class_of (heap s) self = Some (ClsPow t) -> has_PowOperation t = true ->
  get_inverse self s = (Ret (VNum (NBool false)), s).
Proof.
  intros Hc Ht. unfold get_inverse. rewrite op_getattr_eq, Hc. simpl. by rewrite Ht.
Qed.

Lemma set_inverse_PowOperation s self t x :
  class_of (heap s) self = Some (ClsPow t) -> has_PowOperation t = true ->
  set_inverse self x s
  = if is_True x
    then (Raise (NotImplementedError "The inverse can not be set for a power operator"), s)
    else (Ret tt, s).
Proof.
  intros Hc Ht. unfold set_inverse. rewrite op_setattr_eq, Hc. simpl. by rewrite Ht.
Qed.

(** [inv] negates the stored exponent and returns the operator itself. *)
Lemma inv_negates s r t attrs rd items x rb cb attrsb nm :
  heap s !! r = Some (Instance (ClsPow t) attrs) ->
  attrs !! "_hyperparameters" = Some (VRef rd) ->
  heap s !! rd = Some (PyDict items) ->
  items !! "z" = Some (VNum x) -> items !! "base" = Some (VRef rb) ->
  heap s !! rb = Some (Instance cb attrsb) -> attrsb !! "_name" = Some nm ->
  exists s', inv (VRef r) s = (Ret (VRef r), s')
    /\ z (VRef r) s' = (Ret (VNum (negate x)), s')
    /\ base (VRef r) s' = (Ret (VRef rb), s')
    /\ class_of (heap s') (VRef r) = Some (ClsPow t).
Proof.
  intros Hr Hhp Hd Hz Hb Hrb Hnm.
  assert (r <> rd) as Hne by (intros ->; congruence).
  assert (rb <> rd) as Hne' by (intros ->; congruence).
  assert (rd < length (heap s))%nat as Hlt by (by eapply lookup_lt_Some).
  assert (r < length (heap s))%nat as Hltr by (by eapply lookup_lt_Some).
  set (items1 := <["z":=VNum (negate x)]> items).
  set (s1 := State (<[rd:=PyDict items1]> (heap s)) (recording s) (queue s)).
  assert (heap s1 !! r = Some (Instance (ClsPow t) attrs)) as Hr1.
  { simpl. by rewrite list_lookup_insert_ne. }
  assert (heap s1 !! rd = Some (PyDict items1)) as Hd1.
  { simpl. by rewrite list_lookup_insert_eq. }
  assert (heap s1 !! rb = Some (Instance cb attrsb)) as Hrb1.
  { simpl. by rewrite list_lookup_insert_ne. }
  assert (items1 !! "base" = Some (VRef rb)) as Hb1.
  { unfold items1. by rewrite lookup_insert_ne. }
  assert (items1 !! "z" = Some (VNum (negate x))) as Hz1.
  { unfold items1. by rewrite lookup_insert_eq. }
  set (name1 := VStr (format_value nm ++ "**" ++ format_value (VNum (negate x)))).
  set (attrs2 := <["_name":=name1]> attrs).
  set (s2 := State (<[r:=Instance (ClsPow t) attrs2]> (heap s1)) (recording s1) (queue s1)).
  assert (heap s2 !! r = Some (Instance (ClsPow t) attrs2)) as Hr2.
  { simpl. rewrite list_lookup_insert_eq; [done|]. by rewrite length_insert. }
  assert (heap s2 !! rd = Some (PyDict items1)) as Hd2.
  { simpl. rewrite list_lookup_insert_ne by done. by rewrite list_lookup_insert_eq. }
  assert (attrs2 !! "_hyperparameters" = Some (VRef rd)) as Hhp2.
  { unfold attrs2. by rewrite lookup_insert_ne. }
  exists s2. split; [|split; [|split]].
  - unfold inv.
    rewrite (bind_ret _ _ _ _ _ (hyperparameters_ok _ _ _ _ _ Hr Hhp)).
    rewrite (bind_ret _ _ _ _ _ (getitem_ok _ _ _ _ _ Hd Hz)).
    simpl mul_neg1.
    rewrite (bind_ret _ _ s (VNum (negate x)) s) by done.
    rewrite (bind_ret _ _ _ _ _ (setitem_ok _ _ _ _ _ Hd)).
    fold items1. fold s1.
    rewrite (bind_ret _ _ _ _ _ (base_ok _ _ _ _ _ _ _ Hr1 Hhp Hd1 Hb1)).
    rewrite (bind_ret _ _ _ _ _ (op_getattr_name _ 0 _ _ _ _ Hrb1 Hnm)).
    rewrite (bind_ret _ _ _ _ _ (z_ok _ _ _ _ _ _ _ Hr1 Hhp Hd1 Hz1)).
    rewrite (bind_ret _ _ _ _ _ (setattr_ok _ _ _ _ _ _ Hr1)).
    done.
  - by eapply z_ok.
  - by eapply base_ok.
  - by eapply class_of_instance.
Qed.

(** C10: on a [Pow] whose type was picked for a base that is an Operation,
    [inverse] reads False; assigning True raises NotImplementedError,
    assigning False is accepted, and no assignment changes the object, so
    [inverse] reads False ever after; [inv] inverts by negating the
    exponent. *)
Theorem C10_inverse_never_set (h0 : list pyobj) (b : value) (s : state) (self : value) :
  isinstance h0 b class_is_Operation = true ->
  class_of (heap s) self = Some (ClsPow (pick_type h0 b)) ->
  get_inverse self s = (Ret (VNum (NBool false)), s)
  /\ set_inverse self (VNum (NBool true)) s
     = (Raise (NotImplementedError "The inverse can not be set for a power operator"), s)
  /\ set_inverse self (VNum (NBool false)) s = (Ret tt, s)
  /\ (forall x, get_inverse self (set_inverse self x s).2 = (Ret (VNum (NBool false)), s))
  /\ (forall r attrs rd items x rb cb attrsb nm,
        self = VRef r ->
        heap s !! r = Some (Instance (ClsPow (pick_type h0 b)) attrs) ->
        attrs !! "_hyperparameters" = Some (VRef rd) ->
        heap s !! rd = Some (PyDict items) ->
        items !! "z" = Some (VNum x) -> items !! "base" = Some (VRef rb) ->
        heap s !! rb = Some (Instance cb attrsb) -> attrsb !! "_name" = Some nm ->
        exists s', inv self s = (Ret self, s')
          /\ z self s' = (Ret (VNum (negate x)), s')
          /\ get_inverse self s' = (Ret (VNum (NBool false)), s')).
Proof.
  intros Hop Hc. apply pick_type_Operation in Hop.
  split; [by eapply get_inverse_PowOperation|].
  split; [by rewrite (set_inverse_PowOperation _ _ _ _ Hc Hop)|].
  split; [by rewrite (set_inverse_PowOperation _ _ _ _ Hc Hop)|].
  split.
  - intros x. rewrite (set_inverse_PowOperation _ _ _ _ Hc Hop).
    destruct (is_True x); simpl; by eapply get_inverse_PowOperation.
  - intros r attrs rd items x rb cb attrsb nm -> Hr Hhp Hd Hz Hb Hrb Hnm.
    destruct (inv_negates _ _ _ _ _ _ _ _ _ _ _ Hr Hhp Hd Hz Hb Hrb Hnm)
      as (s' & Hinv & Hz' & _ & Hc').
    exists s'. split; [done|]. split; [done|]. by eapply get_inverse_PowOperation.
Qed.


End Access.


Lemma lookup_snoc_new {A} (l : list A) x i : i = length l -> ((l ++ [x])%list) !! i = Some x.
Proof. intros ->. by rewrite list_lookup_middle. Qed.

Lemma lookup_snoc_old {A} (l : list A) x i : (i < length l)%nat -> ((l ++ [x])%list) !! i = l !! i.
Proof. intros H. by rewrite lookup_app_l. Qed.

Lemma lookup_insert_same {A} (l : list A) x i j :
  i = j -> (j < length l)%nat -> <[i:=x]> l !! j = Some x.
Proof. intros -> H. by apply list_lookup_insert_eq. Qed.

Ltac norm_len := repeat (rewrite length_insert || rewrite length_app); cbn [length].
Ltac solve_len := cbn [heap recording queue]; norm_len; simpl; lia.

Ltac heap_lookup :=
  simpl heap;
  repeat first
    [ rewrite lookup_insert_same by solve_len
    | rewrite list_lookup_insert_ne by solve_len
    | rewrite lookup_snoc_new by solve_len
    | rewrite lookup_snoc_old by solve_len ].

Lemma bind_assoc {A B C} (m : py A) (f : A -> py B) (g : B -> py C) s :
  bind (bind m f) g s = bind m (fun a => bind (f a) g) s.
Proof. unfold bind. by destruct (m s) as [[a|e] s']. Qed.

Ltac map_lookup :=
  repeat first
    [ rewrite lookup_insert_eq
    | rewrite lookup_insert_ne by done
    | rewrite lookup_delete_eq
    | rewrite lookup_delete_ne by done
    | rewrite lookup_empty ].

Ltac known := first [ eassumption | reflexivity ].

Ltac tidy :=
  cbn [heap recording queue]; norm_len.

Ltac step lem :=
  rewrite ?bind_assoc;
  erewrite bind_ret;
  [| eapply lem; try (heap_lookup; known); try (map_lookup; known) ];
  tidy.

Section Construction.
Context {F : Facade}.

Lemma alloc_ok o s :
  alloc o s = (Ret (length (heap s)), State (heap s ++ [o])%list (recording s) (queue s)).
Proof. done. Qed.

Lemma op_getattr_ClsOp fuel s r c attrs name :
  heap s !! r = Some (Instance (ClsOp c) attrs) -> name <> "name" ->
  op_getattr fuel (VRef r) name s = getattr (VRef r) name s.
Proof.
  intros H Hn. rewrite op_getattr_eq, (class_of_instance _ _ _ _ H).
  by rewrite bool_decide_eq_false_2.
Qed.

Lemma op_setattr_ClsOp fuel s r c attrs name x :
  heap s !! r = Some (Instance (ClsOp c) attrs) ->
  op_setattr fuel (VRef r) name x s
  = (Ret tt, State (<[r:=Instance (ClsOp c) (<[name:=x]> attrs)]> (heap s))
                   (recording s) (queue s)).
Proof.
  intros H. rewrite op_setattr_eq, (class_of_instance _ _ _ _ H).
  by apply setattr_ok.
Qed.

Lemma hyperparameters_new s r c attrs :
  heap s !! r = Some (Instance c attrs) -> attrs !! "_hyperparameters" = None ->
  hyperparameters (VRef r) s
  = (Ret (VRef (length (heap s))),
     State (<[r:=Instance c (<["_hyperparameters":=VRef (length (heap s))]> attrs)]>
              (heap s ++ [PyDict ∅])%list)
           (recording s) (queue s)).
Proof.
  intros H1 H2. unfold hyperparameters. rewrite (getattr_missing _ _ _ _ _ H1 H2).
  rewrite (bind_ret _ _ _ _ _ (alloc_ok _ _)).
  assert (r < length (heap s))%nat by (by eapply lookup_lt_Some).
  erewrite bind_ret; [|eapply setattr_ok; heap_lookup; exact H1].
  done.
Qed.






End Construction.


Lemma extends_refl s : extends s s.
Proof. by repeat split. Qed.

Lemma extends_trans s1 s2 s3 : extends s1 s2 -> extends s2 s3 -> extends s1 s3.
Proof.
  intros (H1 & H2 & H3) (H4 & H5 & H6). repeat split; try congruence. eauto.
Qed.

Lemma extends_length s s' : extends s s' -> (length (heap s) <= length (heap s'))%nat.
Proof.
  intros (_ & _ & H). destruct (length (heap s)) as [|n] eqn:E; [lia|].
  destruct (lookup_lt_is_Some_2 (heap s) n) as [o Ho]; [lia|].
  apply H, lookup_lt_Some in Ho. lia.
Qed.

Lemma chain_weaken lo lo' h h' d v :
  chain lo h d v -> (lo' <= lo)%nat ->
  (forall r o, (lo <= r)%nat -> h !! r = Some o -> h' !! r = Some o) ->
  chain lo' h' d v.
Proof.
  intros Hc Hlo Hh. induction Hc as [r c attrs Hr Hcell|d r t attrs rd items b Hr Hrd Hcell Hhp Hdict Hb _ IH].
  - eapply chain_op; [lia|by apply Hh].
  - apply (chain_pow _ _ d r t attrs rd items b); [lia|lia|by apply Hh|done|by apply Hh|done|done].
Qed.

Lemma chain_class lo h d v : chain lo h d v -> exists c, class_of h v = Some c.
Proof.
  intros [r c attrs _ H|d' r t attrs rd items b _ _ H];
    rewrite (class_of_instance _ _ _ _ H); eauto.
Qed.

Lemma extends_class s s' v c :
  extends s s' -> class_of (heap s) v = Some c -> class_of (heap s') v = Some c.
Proof.
  intros (_ & _ & H) Hc. apply class_of_inv in Hc as (r & attrs & -> & Hr).
  by rewrite (class_of_instance _ _ _ _ (H _ _ Hr)).
Qed.

Lemma extends_chain s s' d v :
  extends s s' -> chain 0 (heap s) d v -> chain 0 (heap s') d v.
Proof.
  intros (_ & _ & H) Hc. eapply chain_weaken; [exact Hc|lia|]. intros r o _. apply H.
Qed.

Section Copy.
Context {F : Facade}.

Lemma copy_eq fuel v s :
  copy fuel v s
  = match v with
    | VRef r =>
        match heap s !! r with
        | Some (PyDict items) =>
            (Ret (VRef (length (heap s))),
             State (heap s ++ [PyDict items])%list (recording s) (queue s))
        | Some (PyList items) =>
            (Ret (VRef (length (heap s))),
             State (heap s ++ [PyList items])%list (recording s) (queue s))
        | Some (Instance (ClsOp c) attrs) =>
            (Ret (VRef (length (heap s))),
             State (heap s ++ [Instance (ClsOp c) attrs])%list (recording s) (queue s))
        | Some (Instance (ClsPow _) _) =>
            match fuel with
            | O => (Raise RecursionError, s)
            | S fuel' => Pow__copy__body (copy fuel') v s
            end
        | None => (Raise TypeError, s)
        end
    | _ => (Ret v, s)
    end.
Proof.
  destruct fuel; simpl; unfold bind at 1; simpl; destruct v as [| | |r]; try done;
    destruct (heap s !! r) as [[[t|c] attrs|items|items]|]; done.
Qed.

Lemma Pow__copy__body_ok (cp : value -> py value) s r t attrs rd items b cb d :
  heap s !! r = Some (Instance (ClsPow t) attrs) ->
  attrs !! "_hyperparameters" = Some (VRef rd) ->
  heap s !! rd = Some (PyDict items) ->
  items !! "base" = Some b ->
  class_of (heap s) b = Some cb ->
  (forall s1 rd1 items1, heap s1 !! rd1 = Some (PyDict items1) ->
     cp (VRef rd1) s1
     = (Ret (VRef (length (heap s1))),
        State (heap s1 ++ [PyDict items1])%list (recording s1) (queue s1))) ->
  (forall s3, extends s s3 -> exists b' s4, cp b s3 = (Ret b', s4) /\ copied s3 b d s4 b') ->
  let n := length (heap s) in
  exists s5 b',
    Pow__copy__body cp (VRef r) s = (Ret (VRef n), s5)
    /\ extends s s5
    /\ heap s5 !! n
       = Some (Instance (ClsPow t)
                 (<["_hyperparameters":=VRef (n + 1)%nat]> (delete "_hyperparameters" attrs)))
    /\ heap s5 !! (n + 1)%nat = Some (PyDict (<["base":=b']> items))
    /\ chain (n + 2) (heap s5) d b'
    /\ class_of (heap s5) b' = Some cb
    /\ (forall rb c battrs, b = VRef rb ->
          heap s !! rb = Some (Instance (ClsOp c) battrs) ->
          exists rb', b' = VRef rb' /\ heap s5 !! rb' = Some (Instance (ClsOp c) battrs)).
Proof.
  intros Hr Hhp Hd Hb Hcb Hcp_dict Hcp_base n. subst n.
  assert (r < length (heap s))%nat as Hltr by (by eapply lookup_lt_Some).
  assert (rd < length (heap s))%nat as Hltd by (by eapply lookup_lt_Some).
  unfold Pow__copy__body.
  rewrite (bind_ret _ _ _ _ _ (deref_ok _ _ _ Hr)).
  rewrite (bind_ret _ _ _ _ _ (alloc_ok _ _)).
  step getattr_ok.
  rewrite ?bind_assoc. erewrite bind_ret; [|apply Hcp_dict; heap_lookup; known]. tidy.
  step setattr_ok. step base_ok.
  match goal with |- context [bind (cp b) _ ?st] => set (s3 := st) end.
  assert (extends s s3) as Hext3.
  { repeat split. intros r0 o Ho.
    assert (r0 < length (heap s))%nat by (by eapply lookup_lt_Some).
    unfold s3. heap_lookup. done. }
  assert (length (heap s3) = length (heap s) + 2)%nat as Hlen3 by (unfold s3; solve_len).
  destruct (Hcp_base s3 Hext3) as (b' & s4 & Hcopy & Hext4 & Hchain & Hclass & Hsame).
  rewrite ?bind_assoc. rewrite (bind_ret _ _ _ _ _ Hcopy).
  assert (Hlen4 := extends_length _ _ Hext4).
  destruct Hext4 as (Hrec4 & Hq4 & Hcells4).
  assert (heap s4 !! length (heap s)
          = Some (Instance (ClsPow t)
                    (<["_hyperparameters":=VRef (length (heap s) + 1)%nat]>
                       (delete "_hyperparameters" attrs)))) as Hn4.
  { apply Hcells4. unfold s3. heap_lookup. done. }
  assert (heap s4 !! (length (heap s) + 1)%nat = Some (PyDict items)) as Hd4.
  { apply Hcells4. unfold s3. heap_lookup. done. }
  erewrite bind_ret; [|eapply getattr_ok; [exact Hn4|by rewrite lookup_insert_eq]].
  erewrite bind_ret; [|eapply setitem_ok; exact Hd4].
  do 2 eexists. split; [reflexivity|]. cbn [heap recording queue].
  assert (forall r0 o, (length (heap s) + 2 <= r0)%nat -> heap s4 !! r0 = Some o ->
            <[(length (heap s) + 1)%nat:=PyDict (<["base":=b']> items)]> (heap s4) !! r0
            = Some o) as Hhigh.
  { intros r0 o Hr0 Ho. by rewrite list_lookup_insert_ne by lia. }
  split; [|split; [|split; [|split; [|split]]]].
  - unfold extends. cbn [heap recording queue].
    split; [by rewrite Hrec4|]. split; [by rewrite Hq4|].
    intros r0 o Ho.
    assert (r0 < length (heap s))%nat by (by eapply lookup_lt_Some).
    rewrite list_lookup_insert_ne by lia. apply Hcells4.
    destruct Hext3 as (_ & _ & H3). by apply H3.
  - by rewrite list_lookup_insert_ne by lia.
  - rewrite list_lookup_insert_eq by lia. done.
  - eapply chain_weaken; [exact Hchain|lia|]. intros r0 o Hr0. apply Hhigh. lia.
  - assert (class_of (heap s3) b = Some cb) as Hcb3 by (by eapply extends_class).
    rewrite Hcb3 in Hclass.
    apply class_of_inv in Hclass as (rb' & attrsb' & -> & Hrb').
    assert (length (heap s3) <= rb')%nat as Hlo by (inversion Hchain; subst; done).
    eapply class_of_instance. apply Hhigh; [lia|exact Hrb'].
  - intros rb c battrs -> Hrb.
    destruct Hext3 as (_ & _ & H3).
    destruct (Hsame rb c battrs eq_refl (H3 _ _ Hrb)) as (rb' & -> & Hrb').
    assert (length (heap s3) <= rb')%nat as Hlo by (inversion Hchain; subst; done).
    exists rb'. split; [done|]. apply Hhigh; [lia|exact Hrb'].
Qed.

Lemma copy_dict fuel s rd items :
  heap s !! rd = Some (PyDict items) ->
  copy fuel (VRef rd) s
  = (Ret (VRef (length (heap s))),
     State (heap s ++ [PyDict items])%list (recording s) (queue s)).
Proof. intros H. by rewrite copy_eq, H. Qed.

(** With fuel for its depth, [copy] returns a copy of an operator. *)
Lemma copy_chain d : forall fuel s v,
  chain 0 (heap s) d v -> (d <= fuel)%nat ->
  exists v' s', copy fuel v s = (Ret v', s') /\ copied s v d s' v'.
Proof.
  induction d as [|d IH]; intros fuel s v Hchain Hfuel.
  - inversion Hchain as [r c attrs _ Hr|]; subst.
    assert (r < length (heap s))%nat by (by eapply lookup_lt_Some).
    rewrite copy_eq, Hr. do 2 eexists. split; [reflexivity|].
    split; [|split; [|split]]; cbn [heap recording queue].
    + repeat split. intros r0 o Ho.
      assert (r0 < length (heap s))%nat by (by eapply lookup_lt_Some).
      cbn [heap]. by rewrite lookup_app_l.
    + eapply chain_op; [done|]. by rewrite list_lookup_middle.
    + rewrite (class_of_instance _ _ _ _ Hr).
      eapply class_of_instance. by rewrite list_lookup_middle.
    + intros r0 c0 attrs0 [= <-] Hr0. rewrite Hr in Hr0. injection Hr0 as <- <-.
      eexists. split; [done|]. by rewrite list_lookup_middle.
  - inversion Hchain as [|d' r t attrs rd items b _ _ Hr Hhp Hd Hb Hb_chain]; subst.
    destruct fuel as [|fuel]; [lia|].
    rewrite copy_eq, Hr.
    destruct (chain_class _ _ _ _ Hb_chain) as [cb Hcb].
    destruct (Pow__copy__body_ok (copy fuel) s r t attrs rd items b cb d Hr Hhp Hd Hb Hcb)
      as (s5 & b' & Hcopy & Hext & Hn & Hn1 & Hchain' & Hclass' & _).
    { intros s1 rd1 items1. apply copy_dict. }
    { intros s3 Hext3. apply IH; [by eapply extends_chain|lia]. }
    exists (VRef (length (heap s))), s5. split; [exact Hcopy|].
    split; [exact Hext|]. split; [|split].
    + eapply (chain_pow _ _ d (length (heap s)) t _ (length (heap s) + 1) _ b');
        [lia|lia|exact Hn|by rewrite lookup_insert_eq|exact Hn1|by rewrite lookup_insert_eq|].
      eapply chain_weaken; [exact Hchain'|lia|auto].
    + rewrite (class_of_instance _ _ _ _ Hr). by eapply class_of_instance.
    + intros r0 c0 attrs0 [= <-] Hr0. congruence.
Qed.


End Copy.



Section Decomposition.
Context {F : Facade}.

Lemma comprehension_length {A} (e : py A) n s l s' :
  comprehension n e s = (Ret l, s') -> length l = n.
Proof.
  revert s l s'. induction n as [|n IH]; intros s l s'; simpl.
  - by intros [= <- <-].
  - unfold bind at 1. destruct (e s) as [[x|?] s1]; [|done].
    unfold bind at 1. destruct (comprehension n e s1) as [[xs|?] s2] eqn:E; [|done].
    intros [= <- <-]. simpl. f_equal. eauto.
Qed.

Lemma call__copy__eq fuel v s c :
  class_of (heap s) v = Some c -> call__copy__ fuel v s = copy fuel v s.
Proof.
  intros H. unfold call__copy__. rewrite (bind_ret _ _ _ _ _ (get_state_ok s)).
  by rewrite H.
Qed.



End Decomposition.



Lemma C10_witness :
  get_inverse (VRef 1%nat) after_Pow = (Ret (VNum (NBool false)), after_Pow)
  /\ set_inverse (VRef 1%nat) (VNum (NBool true)) after_Pow
     = (Raise (NotImplementedError "The inverse can not be set for a power operator"),
        after_Pow)
  /\ set_inverse (VRef 1%nat) (VNum (NBool false)) after_Pow = (Ret tt, after_Pow).
Proof.
  destruct (C10_inverse_never_set (F:=example_facade) (heap inverted_PauliX) (VRef 0%nat) after_Pow (VRef 1%nat))
    as (H1 & H2 & H3 & _); [vm_compute; reflexivity|vm_compute; reflexivity|].
  exact (conj H1 (conj H2 H3)).
Defined.


Lemma RX_squared_chain : chain 0 (heap RX_squared) 0 (VRef 0%nat).
Proof. eapply chain_op; [lia|vm_compute; reflexivity]. Defined.




(** *** Delegation through nested wrappers *)

Section Delegation.
Context {F : Facade}.

Lemma nest_class h d v r0 : nest h d v r0 -> exists c, class_of h v = Some c.
Proof.
  intros [r c attrs H|d' r t attrs rd items b r1 H];
    rewrite (class_of_instance _ _ _ _ H); eauto.
Qed.

Lemma nest_innermost h d v r0 :
  nest h d v r0 -> exists c attrs, h !! r0 = Some (Instance (ClsOp c) attrs).
Proof. induction 1; eauto. Qed.

Lemma delegated_cases name :
  name ∈ delegated ->
  bool_decide (name = "inverse") = false /\ bool_decide (name = "name") = false
  /\ bool_decide (name = "base_name") = false /\ bool_decide (name = "base") = false
  /\ bool_decide (name = "z") = false /\ forall t, is_delegated t name = true.
Proof.
  unfold delegated. rewrite !elem_of_cons, elem_of_nil.
  intros [->|[->|[->|[->|[->|[->|[->|[]]]]]]]]; repeat split; try done;
    intros t; unfold is_delegated; done.
Qed.

Lemma op_getattr_nest fuel d s v r0 name :
  nest (heap s) d v r0 -> (d <= fuel)%nat -> name ∈ delegated ->
  op_getattr fuel v name s = getattr (VRef r0) name s.
Proof.
  intros Hn. revert fuel.
  induction Hn as [r c attrs Hr|d r t attrs rd items b r0 Hr Hhp Hd Hb Hn IH];
    intros fuel Hfuel Hname.
  - apply (op_getattr_ClsOp _ _ _ _ _ _ Hr). intros ->.
    apply delegated_cases in Hname as (_ & H & _). done.
  - destruct fuel as [|fuel]; [lia|].
    rewrite op_getattr_eq, (class_of_instance _ _ _ _ Hr).
    destruct (delegated_cases _ Hname) as (-> & -> & -> & -> & -> & Hdel).
    rewrite Hdel. simpl.
    rewrite (bind_ret _ _ _ _ _ (base_ok _ _ _ _ _ _ _ Hr Hhp Hd Hb)).
    apply IH; [lia|done].
Qed.


(** The properties that [Pow] delegates read the attribute of the innermost
    operator, through any depth of nested wrappers, and [num_wires] is the
    length of its [wires]. *)
Theorem delegated_properties_read_innermost
    (fuel d : nat) (s : state) (v : value) (r0 : ref) :
  nest (heap s) d v r0 -> (d <= fuel)%nat ->
  (forall name, name ∈ delegated -> op_getattr fuel v name s = getattr (VRef r0) name s)
  /\ ((0 < d)%nat ->
      op_getattr (S fuel) v "num_wires" s = bind (getattr (VRef r0) "wires") len s).
Proof.
  intros Hn Hfuel. split.
  - intros name Hname. by eapply op_getattr_nest.
  - intros Hd. rewrite op_getattr_eq.
    destruct Hn as [|d r t attrs rd items b r0 Hr Hhp Hdict Hb Hn]; [lia|].
    rewrite (class_of_instance _ _ _ _ Hr).
    assert (is_delegated t "num_wires" = false) as Hnd by (by destruct t).
    rewrite Hnd. simpl.
    unfold bind at 1.
    rewrite (op_getattr_nest fuel (S d) s (VRef r) r0 "wires");
      [done|by eapply nest_pow|done|].
    unfold delegated. rewrite !elem_of_cons. tauto.
Qed.

Lemma nest_update h d v r0 c attrs attrs' :
  nest h d v r0 -> h !! r0 = Some (Instance (ClsOp c) attrs) ->
  nest (<[r0:=Instance (ClsOp c) attrs']> h) d v r0.
Proof.
  intros Hn H0. assert (r0 < length h)%nat as Hlt by (by eapply lookup_lt_Some).
  induction Hn as [r c1 attrs1 Hr|d r t attrs1 rd items b r0 Hr Hhp Hd Hb Hn IH].
  - eapply nest_op. by rewrite list_lookup_insert_eq.
  - assert (r <> r0) by congruence. assert (rd <> r0) by congruence.
    eapply nest_pow; [|exact Hhp| |exact Hb|by apply IH];
      by rewrite list_lookup_insert_ne.
Qed.

Lemma op_setattr_nest fuel d s v r0 c attrs0 name x :
  nest (heap s) d v r0 -> (d <= fuel)%nat -> name = "data" \/ name = "_wires" ->
  heap s !! r0 = Some (Instance (ClsOp c) attrs0) ->
  op_setattr fuel v name x s
  = (Ret tt, State (<[r0:=Instance (ClsOp c) (<[name:=x]> attrs0)]> (heap s))
                   (recording s) (queue s)).
Proof.
  intros Hn. revert fuel.
  induction Hn as [r c1 attrs1 Hr|d r t attrs1 rd items b r0 Hr Hhp Hd Hb Hn IH];
    intros fuel Hfuel Hname H0.
  - rewrite Hr in H0. injection H0 as <- <-. by apply op_setattr_ClsOp.
  - destruct fuel as [|fuel]; [lia|].
    rewrite op_setattr_eq, (class_of_instance _ _ _ _ Hr).
    assert (bool_decide (name = "inverse") = false) as ->
      by (apply bool_decide_eq_false; by destruct Hname as [-> | ->]).
    assert (bool_decide (name = "data") || bool_decide (name = "_wires") = true) as ->
      by (destruct Hname as [-> | ->]; done).
    simpl. rewrite (bind_ret _ _ _ _ _ (base_ok _ _ _ _ _ _ _ Hr Hhp Hd Hb)).
    apply IH; [lia|done|done].
Qed.

(** Assigning [data] or [_wires] through a wrapper writes the attribute of
    the innermost operator and nothing else; reading the property back returns
    what was assigned, through this wrapper and through every other wrapper of
    the same operator. *)
Theorem setter_round_trip
    (fuel d : nat) (s : state) (v : value) (r0 : ref) (c : op_class)
    (attrs0 : gmap string value) (name : string) (x : value) :
  nest (heap s) d v r0 -> (d <= fuel)%nat -> name = "data" \/ name = "_wires" ->
  heap s !! r0 = Some (Instance (ClsOp c) attrs0) ->
  let s' := State (<[r0:=Instance (ClsOp c) (<[name:=x]> attrs0)]> (heap s))
                  (recording s) (queue s) in
  op_setattr fuel v name x s = (Ret tt, s')
  /\ op_getattr fuel v name s' = (Ret x, s')
  /\ (forall k u, nest (heap s) k u r0 -> (k <= fuel)%nat ->
        op_getattr fuel u name s' = (Ret x, s')).
Proof.
  intros Hn Hfuel Hname H0 s'.
  assert (r0 < length (heap s))%nat as Hlt by (by eapply lookup_lt_Some).
  assert (name ∈ delegated) as Hdel.
  { unfold delegated. rewrite !elem_of_cons. tauto. }
  assert (Hread : forall k u, nest (heap s) k u r0 -> (k <= fuel)%nat ->
            op_getattr fuel u name s' = (Ret x, s')).
  { intros k u Hu Hk.
    rewrite (op_getattr_nest fuel k s' u r0 name); [|by eapply nest_update|done|done].
    eapply getattr_ok; [simpl; by rewrite list_lookup_insert_eq|].
    by rewrite lookup_insert_eq. }
  split; [by eapply op_setattr_nest|]. split; [by eapply Hread|exact Hread].
Qed.





End Delegation.

(** *** Construction, names and inversion *)

Lemma app_two {A} (l : list A) a b : (l ++ [a; b])%list = ((l ++ [a]) ++ [b])%list.
Proof. by rewrite <- app_assoc. Qed.

(** Two stores are equal when they have the same cells: the cases are the
    base at [rb], the other old cells, and the two new ones. *)
Ltac heap_eq s rb :=
  rewrite app_two; apply list_eq; intros i; norm_len;
  destruct (decide (i = rb)) as [->|?];
    [heap_lookup; reflexivity|];
  destruct (decide (i < length (heap s))%nat);
    [heap_lookup; reflexivity|];
  destruct (decide (i = length (heap s)));
    [subst i; heap_lookup; reflexivity|];
  destruct (decide (i = S (length (heap s))));
    [subst i; heap_lookup; reflexivity|];
  rewrite !lookup_ge_None_2 by solve_len; reflexivity.

Section Construction2.
Context {F : Facade}.

Lemma getattr_default_flag s rb cb attrs :
  heap s !! rb = Some (Instance cb attrs) ->
  getattr_default 0 (VRef rb) "inverse" (VNum (NBool false)) s
  = (Ret (inverse_flag cb attrs), s).
Proof.
  intros Hrb. unfold getattr_default, inverse_flag.
  rewrite op_getattr_eq, (class_of_instance _ _ _ _ Hrb).
  assert (Hget : getattr (VRef rb) "inverse" s
                 = match attrs !! "inverse" with
                   | Some x => (Ret x, s)
                   | None => (Raise (AttributeError "inverse"), s)
                   end).
  { destruct (attrs !! "inverse") as [x|] eqn:Hx;
      [by erewrite getattr_ok|by erewrite getattr_missing]. }
  destruct cb as [t|c].
  - destruct (has_PowOperation t) eqn:Ht; cbn -[getattr]; [done|].
    assert (is_delegated t "inverse" = false) as -> by (unfold is_delegated; by rewrite Ht).
    rewrite Hget. by destruct (attrs !! "inverse").
  - cbn -[getattr]. rewrite Hget. by destruct (attrs !! "inverse").
Qed.

Lemma op_setattr_inverse s rb cb attrs x :
  heap s !! rb = Some (Instance cb attrs) ->
  inverse_flag cb attrs = VNum (NBool true) ->
  op_setattr 0 (VRef rb) "inverse" x s
  = (Ret tt, State (<[rb:=Instance cb (<["inverse":=x]> attrs)]> (heap s))
                   (recording s) (queue s)).
Proof.
  intros Hrb Hfl. rewrite op_setattr_eq, (class_of_instance _ _ _ _ Hrb).
  destruct cb as [t|c]; [|by apply setattr_ok].
  unfold inverse_flag in Hfl. destruct (has_PowOperation t) eqn:Ht; [done|].
  simpl. assert (read_only t "inverse" = false) as -> by (unfold read_only; by rewrite Ht).
  by apply setattr_ok.
Qed.

Lemma Pow_queue_state s r c attrs rd items rb :
  heap s !! r = Some (Instance c attrs) -> attrs !! "_hyperparameters" = Some (VRef rd) ->
  heap s !! rd = Some (PyDict items) -> items !! "base" = Some (VRef rb) ->
  exists q, Pow_queue (VRef r) s = (Ret (VRef r), State (heap s) (recording s) q)
            /\ (recording s = false -> q = queue s).
Proof.
  intros H1 H2 H3 H4. unfold Pow_queue.
  rewrite (bind_ret _ _ _ _ _ (base_ok _ _ _ _ _ _ _ H1 H2 H3 H4)).
  unfold safe_update_info, append, set_queue, bind, get_state, ret. simpl.
  destruct (recording s) eqn:Hrec; simpl; rewrite ?Hrec; simpl.
  - destruct (bool_decide _); simpl; eexists; (split; [reflexivity|done]).
  - exists (queue s). split; [|done]. by destruct s; simpl in *; subst.
Qed.

Lemma Pow_construct_full s rb cb attrs nm z0 dq id (fl : bool) :
  heap s !! rb = Some (Instance cb attrs) ->
  attrs !! "_name" = Some nm ->
  inverse_flag cb attrs = VNum (NBool fl) ->
  let n := length (heap s) in
  let z1 := if fl then negate z0 else z0 in
  let pattrs :=
    <["_name":=VStr (format_value nm ++ "**" ++ format_number z1)]>
      (<["queue_idx":=VNone]> (<["_id":=id]> (<["_hyperparameters":=VRef (n + 1)%nat]> ∅))) in
  exists s',
    Pow (VRef rb) z0 dq id s = (Ret (VRef n), s')
    /\ heap s'
       = (<[rb:=Instance cb (if fl then <["inverse":=VNum (NBool false)]> attrs else attrs)]>
            (heap s)
          ++ [Instance (ClsPow (pick_type (heap s) (VRef rb))) pattrs;
              PyDict (<["z":=VNum z1]> (<["base":=VRef rb]> ∅))])%list
    /\ recording s' = recording s
    /\ (dq = false \/ recording s = false -> queue s' = queue s).
Proof.
  intros Hrb Hnm Hinv n z1 pattrs.
  assert (rb < length (heap s))%nat as Hlt by (by eapply lookup_lt_Some).
  unfold Pow, Pow__new__.
  rewrite (bind_ret _ _ _ _ _ (bind_ret _ _ _ _ _ (get_state_ok s))).
  set (t := pick_type (heap s) (VRef rb)).
  unfold Pow__init__. rewrite ?bind_assoc.
  erewrite bind_ret; [|eapply getattr_default_flag; heap_lookup; known].
  rewrite Hinv.
  rewrite ?bind_assoc. rewrite (bind_ret _ _ _ _ _ (get_state_ok _)).
  simpl truthy. subst n z1 pattrs.
  destruct fl.
  - step op_setattr_inverse. rewrite ?bind_assoc.
    rewrite (bind_ret _ _ _ (negate z0) _) by done.
    step hyperparameters_new. step setitem_ok. step hyperparameters_ok.
    step setitem_ok. step setattr_ok. step setattr_ok.
    step base_ok. step op_getattr_name. step setattr_ok.
    destruct dq.
    + rewrite ?bind_assoc.
      edestruct Pow_queue_state as (q & Hq & Hqrec);
        [| | | |erewrite (bind_ret _ _ _ _ _ Hq)];
        try (heap_lookup; known); try (map_lookup; known).
      tidy. eexists. split; [reflexivity|]. cbn [heap recording queue].
      split; [heap_eq s rb|]. split; [done|]. intros [?|Hrec]; [done|by apply Hqrec].
    + eexists. split; [reflexivity|]. cbn [heap recording queue].
      split; [heap_eq s rb|done].
  - rewrite ?bind_assoc. rewrite (bind_ret _ _ _ z0 _) by done.
    step hyperparameters_new. step setitem_ok. step hyperparameters_ok.
    step setitem_ok. step setattr_ok. step setattr_ok.
    step base_ok. step op_getattr_name. step setattr_ok.
    rewrite (list_insert_id (heap s) rb (Instance cb attrs) Hrb).
    destruct dq.
    + rewrite ?bind_assoc.
      edestruct Pow_queue_state as (q & Hq & Hqrec);
        [| | | |erewrite (bind_ret _ _ _ _ _ Hq)];
        try (heap_lookup; known); try (map_lookup; known).
      tidy. eexists. split; [reflexivity|]. cbn [heap recording queue].
      split; [heap_eq s rb|]. split; [done|]. intros [?|Hrec]; [done|by apply Hqrec].
    + eexists. split; [reflexivity|]. cbn [heap recording queue].
      split; [heap_eq s rb|done].
Qed.


(** What [inv] does to the store: it writes the negated exponent into the
    hyperparameter dict and the new name into the operator. *)
Lemma inv_state s r t attrs rd items x rb cb attrsb nm :
  heap s !! r = Some (Instance (ClsPow t) attrs) ->
  attrs !! "_hyperparameters" = Some (VRef rd) ->
  heap s !! rd = Some (PyDict items) ->
  items !! "z" = Some (VNum x) -> items !! "base" = Some (VRef rb) ->
  heap s !! rb = Some (Instance cb attrsb) -> attrsb !! "_name" = Some nm ->
  inv (VRef r) s
  = (Ret (VRef r),
     State (<[r:=Instance (ClsPow t)
                   (<["_name":=VStr (format_value nm ++ "**" ++ format_number (negate x))]>
                      attrs)]>
              (<[rd:=PyDict (<["z":=VNum (negate x)]> items)]> (heap s)))
           (recording s) (queue s)).
Proof.
  intros Hr Hhp Hd Hz Hb Hrb Hnm.
  assert (r <> rd) as Hne by (intros ->; congruence).
  assert (rb <> rd) as Hne' by (intros ->; congruence).
  assert (rd < length (heap s))%nat as Hlt by (by eapply lookup_lt_Some).
  assert (r < length (heap s))%nat as Hltr by (by eapply lookup_lt_Some).
  unfold inv.
  rewrite (bind_ret _ _ _ _ _ (hyperparameters_ok _ _ _ _ _ Hr Hhp)).
  rewrite (bind_ret _ _ _ _ _ (getitem_ok _ _ _ _ _ Hd Hz)).
  simpl mul_neg1.
  rewrite (bind_ret _ _ s (VNum (negate x)) s) by done.
  rewrite (bind_ret _ _ _ _ _ (setitem_ok _ _ _ _ _ Hd)).
  step base_ok. step op_getattr_name. step z_ok. step setattr_ok.
  done.
Qed.


(** The operator that [Pow(base, z)] returns has [PowOperation] among its
    parents exactly when the base is an Operation, is an Operation or an
    Observable exactly when the base is, and a [Pow] built over it gets the
    same type; the call leaves the recording flag as it was and, with
    [do_queue=False], the queue. *)
Theorem Pow_keeps_category
    (s : state) (rb : ref) (cb : pyclass) (attrs : gmap string value) (nm : value)
    (z0 : number) (do_queue : bool) (id : value) (fl : bool) :
  heap s !! rb = Some (Instance cb attrs) ->
  attrs !! "_name" = Some nm ->
  inverse_flag cb attrs = VNum (NBool fl) ->
  exists self s',
    Pow (VRef rb) z0 do_queue id s = (Ret self, s')
    /\ isinstance (heap s') self class_is_PowOperation = class_is_Operation cb
    /\ isinstance (heap s') self class_is_Operation = class_is_Operation cb
    /\ isinstance (heap s') self class_is_Observable = class_is_Observable cb
    /\ pick_type (heap s') self = pick_type (heap s) (VRef rb)
    /\ recording s' = recording s
    /\ (do_queue = false -> queue s' = queue s).
Proof.
  intros Hrb Hnm Hinv.
  destruct (Pow_construct_full s rb cb attrs nm z0 do_queue id fl Hrb Hnm Hinv)
    as (s' & Hpow & Hheap & Hrec & Hqueue).
  assert (rb < length (heap s))%nat as Hlt by (by eapply lookup_lt_Some).
  eexists _, s'. split; [exact Hpow|].
  cut (isinstance (heap s') (VRef (length (heap s))) class_is_PowOperation
         = class_is_Operation cb
       /\ isinstance (heap s') (VRef (length (heap s))) class_is_Operation
          = class_is_Operation cb
       /\ isinstance (heap s') (VRef (length (heap s))) class_is_Observable
          = class_is_Observable cb
       /\ pick_type (heap s') (VRef (length (heap s))) = pick_type (heap s) (VRef rb)).
  { intros (H1 & H2 & H3 & H4). repeat split; auto. }
  assert (class_of (heap s') (VRef (length (heap s)))
          = Some (ClsPow (pick_type (heap s) (VRef rb)))) as Hc.
  { eapply class_of_instance. rewrite Hheap.
    rewrite lookup_app_r by (rewrite length_insert; lia).
    rewrite length_insert, Nat.sub_diag. reflexivity. }
  unfold pick_type, isinstance. rewrite Hc.
  unfold pick_type, isinstance. rewrite (class_of_instance _ _ _ _ Hrb).
  cbn [class_is_PowOperation class_is_Operation].
  destruct (class_is_Operation cb), (class_is_Observable cb); done.
Qed.

(** After [Pow(base, z)], and again after [inv()], the name of the operator
    is the text of its base's name, two stars and its current exponent: the
    one that construction stored, then the one that [inv] has negated. *)
Theorem name_follows_exponent
    (s : state) (rb : ref) (cb : pyclass) (attrs : gmap string value) (nm : value)
    (z0 : number) (do_queue : bool) (id : value) (fl : bool) :
  heap s !! rb = Some (Instance cb attrs) ->
  attrs !! "_name" = Some nm ->
  inverse_flag cb attrs = VNum (NBool fl) ->
  exists self s1 s2,
    Pow (VRef rb) z0 do_queue id s = (Ret self, s1)
    /\ name_in_sync s1 self
    /\ inv self s1 = (Ret self, s2)
    /\ name_in_sync s2 self
    /\ z self s2 = (Ret (VNum (negate (if fl then negate z0 else z0))), s2).
Proof.
  intros Hrb Hnm Hinv.
  destruct (Pow_construct_full s rb cb attrs nm z0 do_queue id fl Hrb Hnm Hinv)
    as (s1 & Hpow & Hheap & _).
  assert (rb < length (heap s))%nat as Hlt by (by eapply lookup_lt_Some).
  set (n := length (heap s)) in *.
  set (z1 := if fl then negate z0 else z0) in *.
  set (attrs' := if fl then <["inverse":=VNum (NBool false)]> attrs else attrs) in *.
  set (t := pick_type (heap s) (VRef rb)) in *.
  assert (attrs' !! "_name" = Some nm) as Hnm'.
  { unfold attrs'. destruct fl; [by rewrite lookup_insert_ne|done]. }
  assert (heap s1 !! rb = Some (Instance cb attrs')) as Hrb1.
  { rewrite Hheap, lookup_app_l by (rewrite length_insert; lia).
    by rewrite list_lookup_insert_eq. }
  match type of Hheap with
  | _ = (_ ++ [Instance _ ?pa; PyDict ?it])%list => set (pattrs := pa) in *; set (items := it) in *
  end.
  assert (heap s1 !! n = Some (Instance (ClsPow t) pattrs)) as Hn1.
  { rewrite Hheap, lookup_app_r by (rewrite length_insert; lia).
    rewrite length_insert. fold n. by rewrite Nat.sub_diag. }
  assert (heap s1 !! (n + 1)%nat = Some (PyDict items)) as Hd1.
  { rewrite Hheap, lookup_app_r by (rewrite length_insert; lia).
    rewrite length_insert. fold n. by replace (n + 1 - n)%nat with 1%nat by lia. }
  assert (pattrs !! "_hyperparameters" = Some (VRef (n + 1)%nat)) as Hhp by done.
  assert (items !! "base" = Some (VRef rb)) as Hb by done.
  assert (items !! "z" = Some (VNum z1)) as Hz by done.
  pose proof (inv_state s1 n t pattrs (n + 1) items z1 rb cb attrs' nm
                Hn1 Hhp Hd1 Hz Hb Hrb1 Hnm') as Hinv1.
  eexists (VRef n), s1, _. split; [exact Hpow|].
  split; [|split; [exact Hinv1|split]].
  - exists (VRef rb), nm, (VNum z1). split; [by eapply base_ok|].
    split; [by eapply op_getattr_name|]. split; [by eapply z_ok|].
    by eapply op_getattr_name.
  - assert (n <> (n + 1)%nat) by lia. assert (rb <> n) by lia. assert (rb <> (n + 1)%nat) by lia.
    assert (n < length (heap s1))%nat by (by eapply lookup_lt_Some).
    assert (n + 1 < length (heap s1))%nat by (by eapply lookup_lt_Some).
    exists (VRef rb), nm, (VNum (negate z1)).
    split; [|split; [|split]].
    + eapply base_ok; simpl;
        [rewrite list_lookup_insert_eq by (by rewrite length_insert); reflexivity
        |by rewrite lookup_insert_ne
        |rewrite list_lookup_insert_ne by done; by rewrite list_lookup_insert_eq
        |by rewrite lookup_insert_ne].
    + eapply op_getattr_name; [|exact Hnm']. simpl.
      by rewrite !list_lookup_insert_ne.
    + eapply z_ok; simpl;
        [rewrite list_lookup_insert_eq by (by rewrite length_insert); reflexivity
        |by rewrite lookup_insert_ne
        |rewrite list_lookup_insert_ne by done; by rewrite list_lookup_insert_eq
        |by rewrite lookup_insert_eq].
    + eapply op_getattr_name; simpl;
        [rewrite list_lookup_insert_eq by (by rewrite length_insert); reflexivity
        |by rewrite lookup_insert_eq].
  - assert (n <> (n + 1)%nat) by lia.
    assert (n < length (heap s1))%nat by (by eapply lookup_lt_Some).
    assert (n + 1 < length (heap s1))%nat by (by eapply lookup_lt_Some).
    eapply z_ok; simpl;
        [rewrite list_lookup_insert_eq by (by rewrite length_insert); reflexivity
        |by rewrite lookup_insert_ne
        |rewrite list_lookup_insert_ne by done; by rewrite list_lookup_insert_eq
        |by rewrite lookup_insert_eq].
Qed.


Lemma negate_negate_int x n : as_int x = Some n -> negate (negate x) = NInt n.
Proof.
  destruct x as [[|]|m|f]; simpl; intros [= <-]; try done.
  by rewrite Z.opp_involutive.
Qed.

(** [inv] twice over an exponent that is an int (a bool included) leaves
    the int as exponent and the name written with it; when the exponent was an
    int proper and the name was the one of the exponent, the store is as it
    was before. *)
Theorem inv_twice
    (s : state) (r rd rb : ref) (t : pow_type) (attrs items attrsb : gmap string value)
    (x : number) (n : Z) (cb : pyclass) (nm : value) :
  heap s !! r = Some (Instance (ClsPow t) attrs) ->
  attrs !! "_hyperparameters" = Some (VRef rd) ->
  heap s !! rd = Some (PyDict items) ->
  items !! "z" = Some (VNum x) -> items !! "base" = Some (VRef rb) ->
  heap s !! rb = Some (Instance cb attrsb) -> attrsb !! "_name" = Some nm ->
  rb <> r ->
  as_int x = Some n ->
  exists s',
    bind (inv (VRef r)) inv s = (Ret (VRef r), s')
    /\ z (VRef r) s' = (Ret (VNum (NInt n)), s')
    /\ op_getattr 0 (VRef r) "name" s'
       = (Ret (VStr (format_value nm ++ "**" ++ pretty n)), s')
    /\ (x = NInt n ->
        attrs !! "_name" = Some (VStr (format_value nm ++ "**" ++ pretty n)) ->
        s' = s).
Proof.
  intros Hr Hhp Hd Hz Hb Hrb Hnm Hrbr Hint.
  assert (r <> rd) as Hne by (intros ->; congruence).
  assert (rb <> rd) as Hne' by (intros ->; congruence).
  assert (rd < length (heap s))%nat as Hlt by (by eapply lookup_lt_Some).
  assert (r < length (heap s))%nat as Hltr by (by eapply lookup_lt_Some).
  rewrite (bind_ret _ _ _ _ _ (inv_state s r t attrs rd items x rb cb attrsb nm
                                 Hr Hhp Hd Hz Hb Hrb Hnm)).
  set (name1 := VStr (format_value nm ++ "**" ++ format_number (negate x))).
  set (s1 := State _ _ _).
  assert (heap s1 !! r = Some (Instance (ClsPow t) (<["_name":=name1]> attrs))) as Hr1.
  { simpl. rewrite list_lookup_insert_eq; [done|by rewrite length_insert]. }
  assert (heap s1 !! rd = Some (PyDict (<["z":=VNum (negate x)]> items))) as Hd1.
  { simpl. rewrite list_lookup_insert_ne by done. by rewrite list_lookup_insert_eq. }
  assert (heap s1 !! rb = Some (Instance cb attrsb)) as Hrb1.
  { simpl. by rewrite !list_lookup_insert_ne. }
  erewrite (inv_state s1 r t _ rd _ (negate x) rb cb attrsb nm Hr1); cycle 1.
  { by rewrite lookup_insert_ne. }
  { exact Hd1. }
  { by rewrite lookup_insert_eq. }
  { by rewrite lookup_insert_ne. }
  { exact Hrb1. }
  { exact Hnm. }
  rewrite (negate_negate_int _ _ Hint). cbn [format_number].
  rewrite !insert_insert_eq. subst s1. cbn [heap recording queue].
  rewrite (list_insert_insert_ne _ rd r) by done.
  rewrite !list_insert_insert_eq.
  eexists. split; [reflexivity|].
  split; [|split].
  - eapply z_ok.
    + heap_lookup. reflexivity.
    + by rewrite lookup_insert_ne.
    + heap_lookup. reflexivity.
    + by rewrite lookup_insert_eq.
  - eapply op_getattr_name.
    + heap_lookup. reflexivity.
    + by rewrite lookup_insert_eq.
  - intros -> Hsync. rewrite (insert_id attrs "_name") by done.
    rewrite (insert_id items "z") by done.
    rewrite (list_insert_id (heap s) rd) by done.
    rewrite (list_insert_id (heap s) r) by done.
    by destruct s.
Qed.



(** [Pow(base, z)] over a base that is no operator instance (the default
    [None], a number, a string, a dict or a list) raises AttributeError when it
    reads [base.name]; what existed in the store is as before. *)
Theorem Pow_needs_named_base
    (s : state) (b : value) (z0 : number) (do_queue : bool) (id : value) :
  class_of (heap s) b = None ->
  (forall r, b = VRef r -> (r < length (heap s))%nat) ->
  exists s',
    Pow b z0 do_queue id s = (Raise (AttributeError "name"), s')
    /\ extends s s'.
Proof.
  intros Hc Hb.
  assert (forall s1, (forall r o, heap s !! r = Some o -> heap s1 !! r = Some o) ->
            (forall r o, (r < length (heap s))%nat -> heap s1 !! r = Some o ->
                         heap s !! r = Some o) ->
            class_of (heap s1) b = None) as Hc1.
  { intros s1 H1 H2. destruct b as [| | |r]; try done. simpl in *.
    specialize (Hb r eq_refl).
    destruct (lookup_lt_is_Some_2 (heap s) r Hb) as [o Ho].
    rewrite Ho in Hc. by rewrite (H1 _ _ Ho). }
  unfold Pow, Pow__new__.
  rewrite (bind_ret _ _ _ _ _ (bind_ret _ _ _ _ _ (get_state_ok s))).
  assert (pick_type (heap s) b = PowPlain) as ->.
  { unfold pick_type, isinstance. by rewrite Hc. }
  unfold Pow__init__. rewrite ?bind_assoc.
  set (s1 := State _ _ _).
  assert (class_of (heap s1) b = None) as Hcs1.
  { apply Hc1; unfold s1; simpl.
    - intros r o Ho. rewrite lookup_app_l; [done|by eapply lookup_lt_Some].
    - intros r o Hr. by rewrite lookup_app_l. }
  assert (getattr_default 0 b "inverse" (VNum (NBool false)) s1
          = (Ret (VNum (NBool false)), s1)) as Hflag.
  { unfold getattr_default. by rewrite op_getattr_eq, Hcs1. }
  rewrite ?bind_assoc. rewrite (bind_ret _ _ _ _ _ Hflag).
  rewrite ?bind_assoc. rewrite (bind_ret _ _ _ _ _ (get_state_ok _)).
  simpl truthy. cbv iota.
  rewrite ?bind_assoc. rewrite (bind_ret _ _ _ z0 _) by done.
  unfold s1.
  step hyperparameters_new. step setitem_ok. step hyperparameters_ok.
  step setitem_ok. step setattr_ok. step setattr_ok.
  step base_ok. rewrite ?bind_assoc.
  match goal with |- context [bind (op_getattr 0 b "name") _ ?st] => set (s2 := st) end.
  assert (forall r o, heap s !! r = Some o -> heap s2 !! r = Some o) as Hold.
  { intros r o Ho. assert (r < length (heap s))%nat by (by eapply lookup_lt_Some).
    unfold s2. heap_lookup. done. }
  assert (class_of (heap s2) b = None) as Hcs2.
  { apply Hc1; [exact Hold|]. intros r o Hr. unfold s2. heap_lookup. done. }
  erewrite bind_raise; [|by rewrite op_getattr_eq, Hcs2].
  eexists. split; [reflexivity|]. by repeat split.
Qed.

End Construction2.

(** *** Copies *)

Section Copy2.
Context {F : Facade}.

(** A copy of a [Pow] over an operator carries every attribute of the
    original but has a hyperparameter dict of its own: inverting the copy
    leaves the original, its base and its exponent as they were, and inverting
    the original leaves the exponent of the copy. *)
Theorem copy_is_independent
    (fuel : nat) (s : state) (r rd rb : ref) (t : pow_type) (c : op_class)
    (attrs items battrs : gmap string value) (x : number) (nm : value) :
  heap s !! r = Some (Instance (ClsPow t) attrs) ->
  attrs !! "_hyperparameters" = Some (VRef rd) ->
  heap s !! rd = Some (PyDict items) ->
  items !! "base" = Some (VRef rb) -> items !! "z" = Some (VNum x) ->
  heap s !! rb = Some (Instance (ClsOp c) battrs) ->
  battrs !! "_name" = Some nm ->
  exists r' s1 s2 s3,
    Pow__copy__ fuel (VRef r) s = (Ret (VRef r'), s1)
    /\ (forall k, k <> "_hyperparameters" -> attrs_at s1 r' !! k = attrs !! k)
    /\ inv (VRef r') s1 = (Ret (VRef r'), s2)
    /\ extends s s2
    /\ z (VRef r') s2 = (Ret (VNum (negate x)), s2)
    /\ z (VRef r) s2 = (Ret (VNum x), s2)
    /\ inv (VRef r) s1 = (Ret (VRef r), s3)
    /\ z (VRef r) s3 = (Ret (VNum (negate x)), s3)
    /\ z (VRef r') s3 = (Ret (VNum x), s3).
Proof.
  intros Hr Hhp Hd Hb Hz Hrb Hnm.
  assert (chain 0 (heap s) 0 (VRef rb)) as Hchain by (eapply chain_op; [lia|exact Hrb]).
  assert (r < length (heap s))%nat as Hltr by (by eapply lookup_lt_Some).
  assert (rd < length (heap s))%nat as Hltd by (by eapply lookup_lt_Some).
  assert (rb < length (heap s))%nat as Hltb by (by eapply lookup_lt_Some).
  assert (r <> rd) as Hne by (intros ->; congruence).
  destruct (Pow__copy__body_ok (copy fuel) s r t attrs rd items (VRef rb) (ClsOp c) 0
              Hr Hhp Hd Hb (class_of_instance _ _ _ _ Hrb))
    as (s1 & b' & Hcopy & Hext & Hn & Hn1 & Hchain' & Hclass' & Hsame).
  { intros s0 rd1 items1. apply copy_dict. }
  { intros s0 Hext0. apply copy_chain; [by eapply extends_chain|lia]. }
  destruct (Hsame rb c battrs eq_refl Hrb) as (rb' & -> & Hrb').
  assert (length (heap s) + 2 <= rb')%nat as Hlo by (inversion Hchain'; subst; done).
  set (n := length (heap s)) in *.
  set (cattrs := <["_hyperparameters":=VRef (n + 1)%nat]> (delete "_hyperparameters" attrs)) in *.
  assert (cattrs !! "_hyperparameters" = Some (VRef (n + 1)%nat)) as Hchp.
  { unfold cattrs. by rewrite lookup_insert_eq. }
  assert (Hcells := Hext). destruct Hcells as (_ & _ & Hcells).
  assert (n + 1 < length (heap s1))%nat as Hlen1 by (by eapply lookup_lt_Some).
  pose proof (inv_state s1 n t cattrs (n + 1) (<["base":=VRef rb']> items) x rb'
                (ClsOp c) battrs nm Hn) as Hinv2.
  pose proof (inv_state s1 r t attrs rd items x rb (ClsOp c) battrs nm
                (Hcells _ _ Hr) Hhp (Hcells _ _ Hd) Hz Hb (Hcells _ _ Hrb) Hnm) as Hinv3.
  eexists n, s1, _, _. split; [exact Hcopy|].
  split.
  { intros k Hk. unfold attrs_at. rewrite Hn. unfold cattrs.
    by rewrite lookup_insert_ne, lookup_delete_ne. }
  split.
  { apply Hinv2; [exact Hchp|exact Hn1|by rewrite lookup_insert_ne|by rewrite lookup_insert_eq
                 |exact Hrb'|exact Hnm]. }
  split.
  { destruct Hext as (Hrec & Hq & _). split; [done|]. split; [done|].
    intros r0 o Ho. assert (r0 < n)%nat by (by eapply lookup_lt_Some).
    cbn [heap]. rewrite !list_lookup_insert_ne by lia. by apply Hcells. }
  split.
  { eapply z_ok; cbn [heap].
    - rewrite list_lookup_insert_eq; [reflexivity|rewrite length_insert; lia].
    - rewrite lookup_insert_ne by done. exact Hchp.
    - rewrite list_lookup_insert_ne by lia. rewrite list_lookup_insert_eq by lia. reflexivity.
    - by rewrite lookup_insert_eq. }
  split.
  { eapply z_ok; cbn [heap].
    - rewrite !list_lookup_insert_ne by lia. by apply Hcells.
    - exact Hhp.
    - rewrite !list_lookup_insert_ne by lia. by apply Hcells.
    - exact Hz. }
  split; [exact Hinv3|].
  split.
  { eapply z_ok; cbn [heap].
    - rewrite list_lookup_insert_eq; [reflexivity|rewrite length_insert; lia].
    - by rewrite lookup_insert_ne.
    - rewrite list_lookup_insert_ne by lia. rewrite list_lookup_insert_eq by lia. reflexivity.
    - by rewrite lookup_insert_eq. }
  { eapply z_ok; cbn [heap].
    - rewrite !list_lookup_insert_ne by lia. exact Hn.
    - exact Hchp.
    - rewrite !list_lookup_insert_ne by lia. exact Hn1.
    - by rewrite lookup_insert_ne. }
Qed.

End Copy2.

(** *** Labels *)

Lemma text_of_String a s : text_of (String a s) = Ascii.N_of_ascii a :: text_of s.
Proof. done. Qed.

Lemma text_of_inj s1 s2 : text_of s1 = text_of s2 -> s1 = s2.
Proof.
  revert s2. induction s1 as [|a s1 IH]; intros [|b s2]; try done.
  rewrite !text_of_String. intros [= Hab Hs]. f_equal; [|by apply IH].
  by rewrite <- (Ascii.ascii_N_embedding a), Hab, Ascii.ascii_N_embedding.
Qed.

Lemma pretty_N_char_decimal x : decimal (Ascii.N_of_ascii (pretty_N_char x)).
Proof. left. unfold pretty_N_char. repeat case_match; vm_compute; split; discriminate. Qed.

Lemma pretty_N_go_decimal x : forall s,
  Forall decimal (text_of s) -> Forall decimal (text_of (pretty_N_go x s)).
Proof.
  induction (N.lt_wf_0 x) as [x _ IH]. intros s Hs.
  assert (x = 0 \/ 0 < x)%N as [->|Hx] by lia; [by rewrite pretty_N_go_0|].
  rewrite pretty_N_go_step by done. apply IH; [by apply N.div_lt|].
  rewrite text_of_String. constructor; [apply pretty_N_char_decimal|done].
Qed.

Lemma pretty_N_decimal (x : N) : Forall decimal (text_of (pretty x)).
Proof.
  unfold pretty, pretty_N. case_decide.
  - constructor; [|constructor]. left. vm_compute. split; discriminate.
  - apply pretty_N_go_decimal. constructor.
Qed.

Lemma pretty_Z_decimal (n : Z) : Forall decimal (text_of (pretty n)).
Proof.
  destruct n as [|p|p]; unfold pretty, pretty_Z.
  - constructor; [|constructor]. left. vm_compute. split; discriminate.
  - apply (pretty_N_decimal (N.pos p)).
  - change (text_of ("-" +:+ pretty p)) with (45%N :: text_of (pretty (N.pos p))).
    constructor; [by right|apply pretty_N_decimal].
Qed.

Lemma decimal_cases c :
  decimal c ->
  (c = 48 \/ c = 49 \/ c = 50 \/ c = 51 \/ c = 52 \/ c = 53 \/ c = 54 \/ c = 55
   \/ c = 56 \/ c = 57 \/ c = 45)%N.
Proof. unfold decimal. lia. Qed.

Lemma superscript_decimal c : decimal c -> exists c', _superscript c = Some c'.
Proof.
  intros H. apply decimal_cases in H.
  repeat (destruct H as [->|H]; [by eexists|]). subst. by eexists.
Qed.

Lemma superscript_inj c1 c2 :
  decimal c1 -> decimal c2 ->
  default c1 (_superscript c1) = default c2 (_superscript c2) -> c1 = c2.
Proof.
  intros H1 H2. apply decimal_cases in H1, H2.
  repeat (destruct H1 as [->|H1]); subst;
    repeat (destruct H2 as [->|H2]); subst; done.
Qed.

Lemma translate_inj t1 t2 :
  Forall decimal t1 -> Forall decimal t2 ->
  translate _superscript t1 = translate _superscript t2 -> t1 = t2.
Proof.
  intros H1. revert t2. induction H1 as [|c1 t1 Hc1 _ IH]; intros t2 H2.
  - by destruct t2.
  - destruct H2 as [|c2 t2 Hc2 H2]; [done|]. simpl. intros [= Hc Ht].
    f_equal; [by apply superscript_inj|by apply IH].
Qed.

Lemma length_text_of s : length (text_of s) = String.length s.
Proof. induction s as [|a s IH]; [done|]. rewrite text_of_String. simpl. by rewrite IH. Qed.

Section LabelFacts.
Context {F : Facade}.
Variable label_of_base : value -> value -> value -> value -> py text.

(** The label of a [Pow] is the label of its base followed by the text of
    the exponent, with digits, dot and signs as superscripts. For an int the
    suffix has one superscript per character of the numeral, and two exponents
    with the same suffix are equal; the text of a bool has no character of the
    table and is kept as it is. *)
Theorem label_of_power
    (s s1 : state) (r rd : ref) (c : pyclass) (attrs items : gmap string value)
    (b decimals base_label cache : value) (x : number) (l : text) :
  heap s !! r = Some (Instance c attrs) ->
  attrs !! "_hyperparameters" = Some (VRef rd) ->
  heap s !! rd = Some (PyDict items) ->
  items !! "base" = Some b -> items !! "z" = Some (VNum x) ->
  label_of_base b decimals base_label cache s = (Ret l, s1) ->
  label label_of_base (VRef r) decimals base_label cache s
  = (Ret (l ++ translate _superscript (text_of (format_number x)))%list, s1)
  /\ (forall n, x = NInt n ->
        let suffix := translate _superscript (text_of (pretty n)) in
        length suffix = String.length (pretty n)
        /\ Forall (fun c => exists d, decimal d /\ _superscript d = Some c) suffix
        /\ forall n', translate _superscript (text_of (pretty n')) = suffix -> n' = n)
  /\ (forall bo, x = NBool bo ->
        translate _superscript (text_of (format_number x))
        = text_of (if bo then "True" else "False")).
Proof.
  intros Hr Hhp Hd Hb Hz Hl. split; [|split].
  - unfold label.
    rewrite (bind_ret _ _ _ _ _ (z_ok _ _ _ _ _ _ _ Hr Hhp Hd Hz)).
    rewrite (bind_ret _ _ _ _ _ (base_ok _ _ _ _ _ _ _ Hr Hhp Hd Hb)).
    by rewrite (bind_ret _ _ _ _ _ Hl).
  - intros n _ suffix. split; [|split].
    + unfold suffix, translate. by rewrite length_map, length_text_of.
    + unfold suffix, translate. apply Forall_forall. intros c' Hc'.
      apply list_elem_of_fmap in Hc' as (d & -> & Hd').
      pose proof (pretty_Z_decimal n) as Hdec.
      rewrite Forall_forall in Hdec. specialize (Hdec d Hd').
      destruct (superscript_decimal d Hdec) as [c' Hc']. exists d. by rewrite Hc'.
    + intros n' Heq. apply translate_inj in Heq; [|apply pretty_Z_decimal..].
      apply text_of_inj in Heq. by apply (inj pretty).
  - by intros [|] ->.
Qed.

End LabelFacts.

(** *** The copies of a decomposition *)

Section Decomposition2.
Context {F : Facade}.

Lemma chain_ref lo h d v :
  chain lo h d v -> exists r, v = VRef r /\ (lo <= r < length h)%nat.
Proof.
  intros [r c attrs Hlo H|d' r t attrs rd items b Hlo _ H];
    exists r; (split; [done|]); apply lookup_lt_Some in H; lia.
Qed.

(** The copies that the fallback list is made of are new objects, one per
    index. *)
Lemma comprehension_fresh fuel d s r t attrs rd items b n : forall sk,
  heap s !! r = Some (Instance (ClsPow t) attrs) ->
  attrs !! "_hyperparameters" = Some (VRef rd) ->
  heap s !! rd = Some (PyDict items) ->
  items !! "base" = Some b ->
  chain 0 (heap s) d b -> (d <= fuel)%nat ->
  extends s sk ->
  exists l s',
    comprehension n (bind (base (VRef r)) (fun b => call__copy__ fuel b)) sk = (Ret l, s')
    /\ extends sk s'
    /\ Forall (fun v => exists r', v = VRef r'
                 /\ (length (heap sk) <= r' < length (heap s'))%nat) l
    /\ NoDup l.
Proof.
  induction n as [|n IH]; intros sk Hr Hhp Hd Hb Hchain Hfuel Hext.
  - exists [], sk. repeat split; auto using extends_refl. constructor.
  - simpl comprehension.
    destruct (chain_class _ _ _ _ Hchain) as [cb Hcb].
    assert (Hext' := Hext). destruct Hext' as (_ & _ & Hcells).
    rewrite ?bind_assoc.
    rewrite (bind_ret _ _ _ _ _ (base_ok _ _ _ _ _ _ _ (Hcells _ _ Hr) Hhp (Hcells _ _ Hd) Hb)).
    cbv beta.
    destruct (copy_chain d fuel sk b) as (v & s1 & Hcopy & Hext1 & Hchain1 & _);
      [by eapply extends_chain|done|].
    rewrite <- (call__copy__eq _ _ _ cb) in Hcopy by (by eapply extends_class).
    rewrite (bind_ret _ _ _ _ _ Hcopy).
    destruct (IH s1) as (l & s' & Hrest & Hext2 & Hall & Hnodup); auto.
    { by eapply extends_trans. }
    rewrite (bind_ret _ _ _ _ _ Hrest).
    destruct (chain_ref _ _ _ _ Hchain1) as (r' & -> & Hr').
    pose proof (extends_length _ _ Hext1) as Hlen1.
    pose proof (extends_length _ _ Hext2) as Hlen2.
    exists (VRef r' :: l), s'. split; [done|].
    split; [by eapply extends_trans|]. split.
    + constructor; [exists r'; split; [done|lia]|].
      eapply Forall_impl; [exact Hall|]. intros v (r2 & -> & Hr2). exists r2. split; [done|lia].
    + constructor; [|exact Hnodup]. intros Hin.
      rewrite Forall_forall in Hall. destruct (Hall _ Hin) as (r2 & [= <-] & Hr2). lia.
Qed.

(** When the base has no power of its own and no context records, the
    decomposition of a power with a positive integer exponent is a list of
    distinct new objects: no two elements are the same object, none is the
    base, and none existed before the call. *)
Theorem decomposition_copies_are_distinct
    (fuel d : nat) (s s' : state) (r rd : ref) (t : pow_type)
    (attrs items : gmap string value) (b zv : value) (n : Z) :
  heap s !! r = Some (Instance (ClsPow t) attrs) ->
  attrs !! "_hyperparameters" = Some (VRef rd) ->
  heap s !! rd = Some (PyDict items) ->
  items !! "base" = Some b -> items !! "z" = Some zv ->
  base_pow b zv s = (Raise PowUndefinedError, s') -> extends s s' ->
  int_of_value zv = Some n -> 0 < n -> recording s' = false ->
  chain 0 (heap s) d b -> (d <= fuel)%nat ->
  exists l s'',
    decomposition fuel (VRef r) s = (Ret l, s'')
    /\ extends s' s''
    /\ NoDup l
    /\ (b ∉ l)
    /\ Forall (fun v => exists r', v = VRef r' /\ heap s' !! r' = None) l.
Proof.
  intros Hr Hhp Hd Hb Hz Hpow Hext Hn Hpos Hrec Hchain Hfuel.
  assert (Hext' := Hext). destruct Hext' as (_ & _ & Hcells).
  destruct (comprehension_fresh fuel d s r t attrs rd items b (Z.to_nat n) s'
              Hr Hhp Hd Hb Hchain Hfuel Hext) as (l & s'' & Hc & Hext2 & Hall & Hnodup).
  exists l, s''. split; [|split; [exact Hext2|split; [exact Hnodup|split]]].
  - unfold decomposition.
    rewrite (bind_ret _ _ _ _ _ (base_ok _ _ _ _ _ _ _ Hr Hhp Hd Hb)).
    rewrite (bind_ret _ _ _ _ _ (z_ok _ _ _ _ _ _ _ Hr Hhp Hd Hz)).
    rewrite Hpow.
    rewrite (bind_ret _ _ _ _ _ (z_ok _ _ _ _ _ _ _ (Hcells _ _ Hr) Hhp (Hcells _ _ Hd) Hz)).
    rewrite Hn. assert (Z.ltb 0 n = true) as -> by (apply Z.ltb_lt; lia).
    rewrite (bind_ret _ _ _ _ _ (get_state_ok s')). by rewrite Hrec.
  - intros Hin. rewrite Forall_forall in Hall. destruct (Hall _ Hin) as (r' & -> & Hr').
    destruct (chain_ref _ _ _ _ Hchain) as (rb & [= <-] & Hrb).
    pose proof (extends_length _ _ Hext). lia.
  - eapply Forall_impl; [exact Hall|]. intros v (r' & -> & Hr'). exists r'. split; [done|].
    apply lookup_ge_None. lia.
Qed.

End Decomposition2.

(** *** Examples *)

Lemma RX_squared_nest : nest (heap RX_squared) 1 (VRef 3%nat) 0.
Proof.
  eapply (nest_pow _ 0 3 PowOperationType (attrs_at RX_squared 3) 4
            (items_at RX_squared 4) (VRef 0%nat) 0);
    [vm_compute; reflexivity..|].
  eapply nest_op. vm_compute. reflexivity.
Defined.

Lemma RX_nest : nest (heap RX_squared) 0 (VRef 0%nat) 0.
Proof. eapply nest_op. vm_compute. reflexivity. Defined.

Lemma Pow_keeps_category_witness :
  exists self s',
    Pow (F:=example_facade) (VRef 0%nat) (NInt 2) false VNone RX_store = (Ret self, s')
    /\ isinstance (heap s') self class_is_PowOperation = true
    /\ isinstance (heap s') self class_is_Operation = true
    /\ isinstance (heap s') self class_is_Observable = false.
Proof.
  destruct (Pow_keeps_category (F:=example_facade) RX_store 0 (ClsOp RX_class)
              (attrs_at RX_store 0) (VStr "RX") (NInt 2) false VNone false)
    as (self & s' & H1 & H2 & H3 & H4 & _);
    [vm_compute; reflexivity..|].
  exists self, s'. exact (conj H1 (conj H2 (conj H3 H4))).
Defined.

Lemma name_follows_exponent_witness :
  exists self s1 s2,
    Pow (F:=example_facade) (VRef 0%nat) (NInt 2) false VNone RX_store = (Ret self, s1)
    /\ name_in_sync (F:=example_facade) s1 self
    /\ inv (F:=example_facade) self s1 = (Ret self, s2)
    /\ name_in_sync (F:=example_facade) s2 self
    /\ z self s2 = (Ret (VNum (NInt (-2))), s2).
Proof.
  apply (name_follows_exponent (F:=example_facade) RX_store 0 (ClsOp RX_class)
           (attrs_at RX_store 0) (VStr "RX") (NInt 2) false VNone false);
    vm_compute; reflexivity.
Defined.

Lemma inv_twice_witness :
  exists s',
    bind (inv (F:=example_facade) (VRef 3%nat)) (inv (F:=example_facade)) RX_squared = (Ret (VRef 3%nat), s')
    /\ z (VRef 3%nat) s' = (Ret (VNum (NInt 2)), s')
    /\ s' = RX_squared.
Proof.
  destruct (inv_twice (F:=example_facade) RX_squared 3 4 0 PowOperationType
              (attrs_at RX_squared 3) (items_at RX_squared 4) (attrs_at RX_squared 0)
              (NInt 2) 2 (ClsOp RX_class) (VStr "RX"))
    as (s' & H1 & H2 & _ & H3);
    [vm_compute; reflexivity..|lia|reflexivity|].
  exists s'. split; [exact H1|]. split; [exact H2|].
  apply H3; [reflexivity|vm_compute; reflexivity].
Defined.

Lemma delegated_properties_witness :
  op_getattr 1 (VRef 3%nat) "data" RX_squared
  = getattr (VRef 0%nat) "data" RX_squared.
Proof.
  destruct (delegated_properties_read_innermost 1 1 RX_squared
              (VRef 3%nat) 0 RX_squared_nest) as [H _]; [lia|].
  apply H. vm_compute. left.
Defined.

Lemma setter_round_trip_witness :
  let s' := (op_setattr 1 (VRef 3%nat) "data" (VRef 2%nat) RX_squared).2 in
  op_getattr 1 (VRef 3%nat) "data" s' = (Ret (VRef 2%nat), s')
  /\ op_getattr 1 (VRef 0%nat) "data" s' = (Ret (VRef 2%nat), s').
Proof.
  destruct (setter_round_trip 1 1 RX_squared (VRef 3%nat) 0 RX_class
              (attrs_at RX_squared 0) "data" (VRef 2%nat) RX_squared_nest)
    as (H1 & H2 & H3); [lia|by left|vm_compute; reflexivity|].
  cbv zeta. rewrite H1. cbn [snd]. split; [exact H2|].
  apply (H3 0%nat (VRef 0%nat) RX_nest). lia.
Defined.



Lemma Pow_needs_named_base_witness :
  exists s',
    Pow (F:=example_facade) VNone (NInt 0) true VNone RX_store
    = (Raise (AttributeError "name"), s')
    /\ extends RX_store s'.
Proof.
  apply (Pow_needs_named_base (F:=example_facade) RX_store VNone (NInt 0) true VNone);
    [reflexivity|intros r H; discriminate H].
Defined.

Lemma copy_is_independent_witness :
  exists r' s1 s2 s3,
    Pow__copy__ 0 (VRef 3%nat) RX_squared = (Ret (VRef r'), s1)
    /\ (forall k, k <> "_hyperparameters" ->
          attrs_at s1 r' !! k = attrs_at RX_squared 3 !! k)
    /\ inv (F:=example_facade) (VRef r') s1 = (Ret (VRef r'), s2)
    /\ extends RX_squared s2
    /\ z (VRef r') s2 = (Ret (VNum (NInt (-2))), s2)
    /\ z (VRef 3%nat) s2 = (Ret (VNum (NInt 2)), s2)
    /\ inv (F:=example_facade) (VRef 3%nat) s1 = (Ret (VRef 3%nat), s3)
    /\ z (VRef 3%nat) s3 = (Ret (VNum (NInt (-2))), s3)
    /\ z (VRef r') s3 = (Ret (VNum (NInt 2)), s3).
Proof.
  apply (copy_is_independent (F:=example_facade) 0 RX_squared 3 4 0 PowOperationType
           RX_class (attrs_at RX_squared 3) (items_at RX_squared 4)
           (attrs_at RX_squared 0) (NInt 2) (VStr "RX"));
    vm_compute; reflexivity.
Defined.

Lemma label_of_power_witness :
  label (F:=example_facade) RX_label (VRef 3%nat) VNone VNone VNone RX_squared
  = (Ret (text_of "RX" ++ [178%N])%list, RX_squared).
Proof.
  destruct (label_of_power (F:=example_facade) RX_label RX_squared RX_squared 3 4
              (ClsPow PowOperationType) (attrs_at RX_squared 3) (items_at RX_squared 4)
              (VRef 0%nat) VNone VNone VNone (NInt 2) (text_of "RX"))
    as [H _]; [vm_compute; reflexivity..|].
  exact H.
Defined.

Lemma decomposition_copies_witness :
  exists l s'',
    decomposition (F:=example_facade) 0 (VRef 3%nat) RX_squared = (Ret l, s'')
    /\ extends RX_squared s''
    /\ NoDup l
    /\ (VRef 0%nat ∉ l).
Proof.
  destruct (decomposition_copies_are_distinct (F:=example_facade) 0 0 RX_squared RX_squared
              3 4 PowOperationType (attrs_at RX_squared 3) (items_at RX_squared 4)
              (VRef 0%nat) (VNum (NInt 2)) 2)
    as (l & s'' & H1 & H2 & H3 & H4 & _);
    [vm_compute; reflexivity..|apply extends_refl|reflexivity|lia|reflexivity
    |exact RX_squared_chain|lia|].
  exists l, s''. exact (conj H1 (conj H2 (conj H3 H4))).
Defined.

End PowFacts.

(** ** The rule engine *)

Module CommutationFacts.
Import Commutation.

Lemma compatible_sym b1 b2 : compatible b1 b2 = compatible b2 b1.
Proof. by destruct b1, b2. Qed.

Lemma undetermined_sym b1 b2 : undetermined b1 b2 = undetermined b2 b1.
Proof. by destruct b1, b2. Qed.

Lemma elem_of_shared_wires w ws1 ws2 :
  w ∈ shared_wires ws1 ws2 <-> w ∈ ws1 /\ w ∈ ws2.
Proof. unfold shared_wires. rewrite list_elem_of_filter. tauto. Qed.

Lemma In_shared_wires_comm w ws1 ws2 :
  In w (shared_wires ws1 ws2) <-> In w (shared_wires ws2 ws1).
Proof. rewrite <- !list_elem_of_In, !elem_of_shared_wires. tauto. Qed.


Lemma test_lookup_consistent a b : test_lookup a b = test_lookup b a.
Proof.
  unfold test_lookup.
  assert (E : existsb (fun w => undetermined (wire_basis a w) (wire_basis b w))
                (shared_wires (wires a) (wires b))
            = existsb (fun w => undetermined (wire_basis b w) (wire_basis a w))
                (shared_wires (wires b) (wires a))).
  { apply eq_true_iff_eq. rewrite !existsb_exists.
    split; intros (w & Hw & Hu); exists w; rewrite undetermined_sym;
      (split; [by apply In_shared_wires_comm | done]). }
  rewrite E. clear E. destruct (existsb _ _); [done|]. f_equal.
  apply eq_true_iff_eq. rewrite !forallb_forall.
  split; intros H w Hw; rewrite compatible_sym; apply H; by apply In_shared_wires_comm.
Qed.

(** The rule data of the tests. *)
Definition test_rules : Rules := {|
  canonical := test_canonical;
  lookup := test_lookup;
  lookup_consistent := test_lookup_consistent;
  matrices_commute := test_matrices_commute;
  matrices_commute_sym := fun _ _ => eq_refl
|}.

Section Engine.
Context {R : Rules}.








End Engine.





(** *** The tests of [TestCommutingFunction], replayed on the rule data *)

(** [qml.is_commuting]. *)
Definition is_commuting : operator -> operator -> result bool :=
  commutes (R:=test_rules).

(** [test_cnot]: two CNOTs. *)
Example test_cnot :
    [is_commuting (gate_on "CNOT" [] [0; 1]) (gate_on "CNOT" [] [1; 0]);
     is_commuting (gate_on "CNOT" [] [1; 0]) (gate_on "CNOT" [] [1; 0]);
     is_commuting (gate_on "CNOT" [] [0; 1]) (gate_on "CNOT" [] [2; 3]);
     is_commuting (gate_on "CNOT" [] [0; 1]) (gate_on "CNOT" [] [3; 1])]
    = [Ok false; Ok true; Ok true; Ok true].
Proof. vm_compute. reflexivity. Qed.

(** [test_cnot_toffoli]: CNOT and Toffoli. *)
Example test_cnot_toffoli :
    [is_commuting (gate_on "CNOT" [] [1; 2]) (gate_on "Toffoli" [] [1; 0; 2]);
     is_commuting (gate_on "CNOT" [] [1; 2]) (gate_on "Toffoli" [] [0; 1; 2]);
     is_commuting (gate_on "CNOT" [] [3; 2]) (gate_on "Toffoli" [] [0; 1; 2]);
     is_commuting (gate_on "CNOT" [] [0; 1]) (gate_on "Toffoli" [] [0; 1; 2])]
    = [Ok true; Ok true; Ok true; Ok false].
Proof. vm_compute. reflexivity. Qed.

(** [test_cnot_cz]: CNOT and CZ. *)
Example test_cnot_cz :
    [is_commuting (gate_on "CNOT" [] [1; 2]) (gate_on "CZ" [] [1; 0]);
     is_commuting (gate_on "CNOT" [] [0; 1]) (gate_on "CZ" [] [0; 1]);
     is_commuting (gate_on "CNOT" [] [0; 1]) (gate_on "CZ" [] [2; 0]);
     is_commuting (gate_on "CNOT" [] [0; 1]) (gate_on "CZ" [] [0; 2])]
    = [Ok true; Ok false; Ok true; Ok true].
Proof. vm_compute. reflexivity. Qed.

(** [test_cz_mcz]: CZ and a controlled PauliZ. *)
Example test_cz_mcz :
    [is_commuting (gate_on "CZ" [] [0; 1]) (ctrl [("PauliZ", [1])] [0]);
     is_commuting (gate_on "CZ" [] [0; 2]) (ctrl [("PauliZ", [1])] [0]);
     is_commuting (gate_on "CZ" [] [0; 2]) (ctrl [("PauliZ", [2])] [0])]
    = [Ok true; Ok true; Ok true].
Proof. vm_compute. reflexivity. Qed.

(** [test_cnot_mcz]: CNOT and a doubly controlled PauliZ. *)
Example test_cnot_mcz :
    [is_commuting (gate_on "CNOT" [] [0; 1]) (ctrl [("PauliZ", [2])] [0; 1]);
     is_commuting (gate_on "CNOT" [] [0; 2]) (ctrl [("PauliZ", [2])] [0; 1]);
     is_commuting (gate_on "CNOT" [] [0; 2]) (ctrl [("PauliZ", [1])] [0; 2]);
     is_commuting (gate_on "CNOT" [] [0; 3]) (ctrl [("PauliZ", [1])] [0; 2]);
     is_commuting (gate_on "CNOT" [] [0; 3]) (ctrl [("PauliZ", [0])] [1; 2])]
    = [Ok false; Ok false; Ok false; Ok true; Ok true].
Proof. vm_compute. reflexivity. Qed.

(** [test_x_cnot]: PauliX and CNOT. *)
Example test_x_cnot :
    [is_commuting (gate_on "PauliX" [] [1]) (gate_on "CNOT" [] [0; 1]);
     is_commuting (gate_on "PauliX" [] [0]) (gate_on "CNOT" [] [0; 1]);
     is_commuting (gate_on "PauliX" [] [2]) (gate_on "CNOT" [] [0; 1])]
    = [Ok true; Ok false; Ok true].
Proof. vm_compute. reflexivity. Qed.

(** [test_cnot_x]: CNOT and PauliX. *)
Example test_cnot_x :
    [is_commuting (gate_on "CNOT" [] [0; 1]) (gate_on "PauliX" [] [1]);
     is_commuting (gate_on "CNOT" [] [0; 1]) (gate_on "PauliX" [] [0]);
     is_commuting (gate_on "CNOT" [] [0; 1]) (gate_on "PauliX" [] [2])]
    = [Ok true; Ok false; Ok true].
Proof. vm_compute. reflexivity. Qed.

(** [test_x_cy]: PauliX and CY. *)
Example test_x_cy :
    [is_commuting (gate_on "PauliX" [] [1]) (gate_on "CY" [] [0; 1]);
     is_commuting (gate_on "PauliX" [] [0]) (gate_on "CY" [] [0; 1]);
     is_commuting (gate_on "PauliX" [] [2]) (gate_on "CY" [] [0; 1])]
    = [Ok false; Ok false; Ok true].
Proof. vm_compute. reflexivity. Qed.

(** [test_cnot_cswap]: CNOT and CSWAP. *)
Example test_cnot_cswap :
    [is_commuting (gate_on "CNOT" [] [0; 2]) (gate_on "CSWAP" [] [0; 1; 2]);
     is_commuting (gate_on "CNOT" [] [0; 1]) (gate_on "CSWAP" [] [0; 1; 2]);
     is_commuting (gate_on "CNOT" [] [0; 3]) (gate_on "CSWAP" [] [0; 1; 2]);
     is_commuting (gate_on "CNOT" [] [1; 2]) (gate_on "CSWAP" [] [0; 1; 2])]
    = [Ok false; Ok false; Ok true; Ok false].
Proof. vm_compute. reflexivity. Qed.

(** [test_cswap_cnot]: CSWAP and CNOT. *)
Example test_cswap_cnot :
    [is_commuting (gate_on "CSWAP" [] [0; 1; 2]) (gate_on "CNOT" [] [1; 2])]
    = [Ok false].
Proof. vm_compute. reflexivity. Qed.

(** [test_cswap_cswap]: two CSWAPs. *)
Example test_cswap_cswap :
    [is_commuting (gate_on "CSWAP" [] [0; 1; 2]) (gate_on "CSWAP" [] [2; 1; 0])]
    = [Ok false].
Proof. vm_compute. reflexivity. Qed.

(** [test_cnot_swap]: CNOT and SWAP. *)
Example test_cnot_swap :
    [is_commuting (gate_on "CNOT" [] [0; 1]) (gate_on "SWAP" [] [0; 1])]
    = [Ok false].
Proof. vm_compute. reflexivity. Qed.

(** [test_swap_cnot]: SWAP and CNOT. *)
Example test_swap_cnot :
    [is_commuting (gate_on "SWAP" [] [0; 1]) (gate_on "CNOT" [] [0; 1])]
    = [Ok false].
Proof. vm_compute. reflexivity. Qed.

(** [test_cz_cswap]: CZ and CSWAP. *)
Example test_cz_cswap :
    [is_commuting (gate_on "CZ" [] [0; 2]) (gate_on "CSWAP" [] [0; 1; 2]);
     is_commuting (gate_on "CZ" [] [0; 1]) (gate_on "CSWAP" [] [0; 1; 2]);
     is_commuting (gate_on "CZ" [] [0; 3]) (gate_on "CSWAP" [] [0; 1; 2])]
    = [Ok false; Ok false; Ok true].
Proof. vm_compute. reflexivity. Qed.

(** [test_cnot_multicx]: CNOT and MultiControlledX. *)
Example test_cnot_multicx :
    [is_commuting (gate_on "CNOT" [] [0; 2]) (gate_on "MultiControlledX" [] [0; 1; 2; 3]);
     is_commuting (gate_on "CNOT" [] [0; 1]) (gate_on "MultiControlledX" [] [0; 1; 2; 3]);
     is_commuting (gate_on "CNOT" [] [0; 3]) (gate_on "MultiControlledX" [] [0; 1; 2; 3])]
    = [Ok false; Ok false; Ok true].
Proof. vm_compute. reflexivity. Qed.

(** [test_cphase_z]: CPhase(0.2) and PauliZ. *)
Example test_cphase_z :
    [is_commuting (gate_on "ControlledPhaseShift" [rad 1 5] [0; 1]) (gate_on "PauliZ" [] [0]);
     is_commuting (gate_on "ControlledPhaseShift" [rad 1 5] [0; 1]) (gate_on "PauliZ" [] [1])]
    = [Ok true; Ok true].
Proof. vm_compute. reflexivity. Qed.

(** [test_cphase_phase]: CPhase(0.2) and PhaseShift(0.1). *)
Example test_cphase_phase :
    [is_commuting (gate_on "ControlledPhaseShift" [rad 1 5] [0; 1]) (gate_on "PhaseShift" [rad 1 10] [0]);
     is_commuting (gate_on "ControlledPhaseShift" [rad 1 5] [0; 1]) (gate_on "PhaseShift" [rad 1 10] [1])]
    = [Ok true; Ok true].
Proof. vm_compute. reflexivity. Qed.

(** [test_cphase_paulix]: CPhase(0.2) and PauliX. *)
Example test_cphase_paulix :
    [is_commuting (gate_on "ControlledPhaseShift" [rad 1 5] [0; 1]) (gate_on "PauliX" [] [0]);
     is_commuting (gate_on "ControlledPhaseShift" [rad 1 5] [0; 1]) (gate_on "PauliX" [] [1])]
    = [Ok false; Ok false].
Proof. vm_compute. reflexivity. Qed.

(** [test_cphase_zero_paulix]: CPhase(0.0) and PauliX. *)
Example test_cphase_zero_paulix :
    [is_commuting (gate_on "ControlledPhaseShift" [rad 0 1] [0; 1]) (gate_on "PauliX" [] [0]);
     is_commuting (gate_on "ControlledPhaseShift" [rad 0 1] [0; 1]) (gate_on "PauliX" [] [1])]
    = [Ok true; Ok true].
Proof. vm_compute. reflexivity. Qed.

(** [test_crx_pauliz]: CRX(0.1) and PauliZ. *)
Example test_crx_pauliz :
    [is_commuting (gate_on "CRX" [rad 1 10] [0; 1]) (gate_on "PauliZ" [] [0]);
     is_commuting (gate_on "CRX" [rad 1 10] [0; 1]) (gate_on "PauliZ" [] [1])]
    = [Ok true; Ok false].
Proof. vm_compute. reflexivity. Qed.

(** [test_crx_zero_pauliz]: CRX(0.0) and PauliZ. *)
Example test_crx_zero_pauliz :
    [is_commuting (gate_on "CRX" [rad 0 1] [0; 1]) (gate_on "PauliZ" [] [0]);
     is_commuting (gate_on "CRX" [rad 0 1] [0; 1]) (gate_on "PauliZ" [] [1])]
    = [Ok true; Ok true].
Proof. vm_compute. reflexivity. Qed.

(** [test_crz_paulix]: CRZ(0.1) and PauliX. *)
Example test_crz_paulix :
    [is_commuting (gate_on "CRZ" [rad 1 10] [0; 1]) (gate_on "PauliX" [] [0]);
     is_commuting (gate_on "CRZ" [rad 1 10] [0; 1]) (gate_on "PauliX" [] [1])]
    = [Ok false; Ok false].
Proof. vm_compute. reflexivity. Qed.

(** [test_crz_zero_paulix]: CRZ(0.0) and PauliX. *)
Example test_crz_zero_paulix :
    [is_commuting (gate_on "CRZ" [rad 0 1] [0; 1]) (gate_on "PauliX" [] [0]);
     is_commuting (gate_on "CRZ" [rad 0 1] [0; 1]) (gate_on "PauliX" [] [1])]
    = [Ok true; Ok true].
Proof. vm_compute. reflexivity. Qed.

(** [test_cry_hadamard]: CRY(0.1) and Hadamard. *)
Example test_cry_hadamard :
    [is_commuting (gate_on "CRY" [rad 1 10] [0; 1]) (gate_on "Hadamard" [] [0]);
     is_commuting (gate_on "CRY" [rad 1 10] [0; 1]) (gate_on "Hadamard" [] [1])]
    = [Ok false; Ok false].
Proof. vm_compute. reflexivity. Qed.

(** [test_cry_zero_hadamard]: CRY(0.0) and Hadamard. *)
Example test_cry_zero_hadamard :
    [is_commuting (gate_on "CRY" [rad 0 1] [0; 1]) (gate_on "Hadamard" [] [0]);
     is_commuting (gate_on "CRY" [rad 0 1] [0; 1]) (gate_on "Hadamard" [] [1])]
    = [Ok true; Ok true].
Proof. vm_compute. reflexivity. Qed.

(** [test_rot_x_simplified]: Rot(pi/2, 0.1, -pi/2) and PauliX. *)
Example test_rot_x_simplified :
    [is_commuting (gate_on "Rot" [pis 1 2; rad 1 10; pis (-1) 2] [0]) (gate_on "PauliX" [] [0]);
     is_commuting (gate_on "Rot" [pis 1 2; rad 1 10; pis (-1) 2] [0]) (gate_on "PauliX" [] [1])]
    = [Ok true; Ok true].
Proof. vm_compute. reflexivity. Qed.

(** [test_rot_y_simplified]: Rot(0, 0.1, 0) and PauliY. *)
Example test_rot_y_simplified :
    [is_commuting (gate_on "Rot" [rad 0 1; rad 1 10; rad 0 1] [0]) (gate_on "PauliY" [] [0]);
     is_commuting (gate_on "Rot" [rad 0 1; rad 1 10; rad 0 1] [0]) (gate_on "PauliY" [] [1])]
    = [Ok true; Ok true].
Proof. vm_compute. reflexivity. Qed.

(** [test_rot_z_simplified]: Rot(0.1, 0, 0.2) and PauliZ. *)
Example test_rot_z_simplified :
    [is_commuting (gate_on "Rot" [rad 1 10; rad 0 1; rad 1 5] [0]) (gate_on "PauliZ" [] [0]);
     is_commuting (gate_on "Rot" [rad 1 10; rad 0 1; rad 1 5] [0]) (gate_on "PauliZ" [] [1])]
    = [Ok true; Ok true].
Proof. vm_compute. reflexivity. Qed.

(** [test_rot_hadamard_simplified]: Rot(pi, pi/2, 0) and Hadamard. *)
Example test_rot_hadamard_simplified :
    [is_commuting (gate_on "Rot" [pis 1 1; pis 1 2; rad 0 1] [0]) (gate_on "Hadamard" [] [0]);
     is_commuting (gate_on "Rot" [pis 1 1; pis 1 2; rad 0 1] [0]) (gate_on "Hadamard" [] [1])]
    = [Ok true; Ok true].
Proof. vm_compute. reflexivity. Qed.

(** [test_rot_z]: Rot(0.1, 0.2, 0.3) and PauliZ. *)
Example test_rot_z :
    [is_commuting (gate_on "Rot" [rad 1 10; rad 1 5; rad 3 10] [0]) (gate_on "PauliZ" [] [0]);
     is_commuting (gate_on "Rot" [rad 1 10; rad 1 5; rad 3 10] [0]) (gate_on "PauliZ" [] [1])]
    = [Ok false; Ok true].
Proof. vm_compute. reflexivity. Qed.

(** [test_crot_x_simplified]: CRot(pi/2, 0.1, -pi/2) and PauliX. *)
Example test_crot_x_simplified :
    [is_commuting (gate_on "CRot" [pis 1 2; rad 1 10; pis (-1) 2] [0; 1]) (gate_on "PauliX" [] [1]);
     is_commuting (gate_on "CRot" [pis 1 2; rad 1 10; pis (-1) 2] [0; 1]) (gate_on "PauliX" [] [0])]
    = [Ok true; Ok false].
Proof. vm_compute. reflexivity. Qed.

(** [test_crot_y_simplified]: CRot(0, 0.1, 0) and PauliY. *)
Example test_crot_y_simplified :
    [is_commuting (gate_on "CRot" [rad 0 1; rad 1 10; rad 0 1] [0; 1]) (gate_on "PauliY" [] [1]);
     is_commuting (gate_on "CRot" [rad 0 1; rad 1 10; rad 0 1] [0; 1]) (gate_on "PauliY" [] [0])]
    = [Ok true; Ok false].
Proof. vm_compute. reflexivity. Qed.

(** [test_crot_z_simplified]: CRot(0.1, 0, 0.2) and PauliZ. *)
Example test_crot_z_simplified :
    [is_commuting (gate_on "CRot" [rad 1 10; rad 0 1; rad 1 5] [0; 1]) (gate_on "PauliZ" [] [1]);
     is_commuting (gate_on "CRot" [rad 1 10; rad 0 1; rad 1 5] [0; 1]) (gate_on "PauliZ" [] [0])]
    = [Ok true; Ok true].
Proof. vm_compute. reflexivity. Qed.

(** [test_crot_hadamard_simplified]: CRot(pi, pi/2, 0) and Hadamard. *)
Example test_crot_hadamard_simplified :
    [is_commuting (gate_on "CRot" [pis 1 1; pis 1 2; rad 0 1] [0; 1]) (gate_on "Hadamard" [] [1]);
     is_commuting (gate_on "CRot" [pis 1 1; pis 1 2; rad 0 1] [0; 1]) (gate_on "Hadamard" [] [0])]
    = [Ok true; Ok false].
Proof. vm_compute. reflexivity. Qed.

(** [test_crot_z]: CRot(0.1, 0.2, 0.3) and PauliZ. *)
Example test_crot_z :
    [is_commuting (gate_on "CRot" [rad 1 10; rad 1 5; rad 3 10] [0; 1]) (gate_on "PauliZ" [] [1]);
     is_commuting (gate_on "CRot" [rad 1 10; rad 1 5; rad 3 10] [0; 1]) (gate_on "PauliZ" [] [0])]
    = [Ok false; Ok true].
Proof. vm_compute. reflexivity. Qed.

(** [test_u2_y_simplified]: U2(2 pi, -2 pi) and PauliY. *)
Example test_u2_y_simplified :
    [is_commuting (gate_on "U2" [pis 2 1; pis (-2) 1] [0]) (gate_on "PauliY" [] [0]);
     is_commuting (gate_on "U2" [pis 2 1; pis (-2) 1] [0]) (gate_on "PauliY" [] [1])]
    = [Ok true; Ok true].
Proof. vm_compute. reflexivity. Qed.

(** [test_u2_x_simplified]: U2(pi/2, -pi/2) and PauliX. *)
Example test_u2_x_simplified :
    [is_commuting (gate_on "U2" [pis 1 2; pis (-1) 2] [0]) (gate_on "PauliX" [] [0]);
     is_commuting (gate_on "U2" [pis 1 2; pis (-1) 2] [0]) (gate_on "PauliX" [] [1])]
    = [Ok true; Ok true].
Proof. vm_compute. reflexivity. Qed.

(** [test_u2_u2]: U2(0.1, 0.2) and U2(0.3, 0.1). *)
Example test_u2_u2 :
    [is_commuting (gate_on "U2" [rad 1 10; rad 1 5] [0]) (gate_on "U2" [rad 3 10; rad 1 10] [0]);
     is_commuting (gate_on "U2" [rad 1 10; rad 1 5] [0]) (gate_on "U2" [rad 3 10; rad 1 10] [1])]
    = [Ok false; Ok true].
Proof. vm_compute. reflexivity. Qed.

(** [test_crot_u2]: CRot(0.1, 0.2, 0.3) and U2(0.4, 0.5). *)
Example test_crot_u2 :
    [is_commuting (gate_on "CRot" [rad 1 10; rad 1 5; rad 3 10] [0; 1]) (gate_on "U2" [rad 2 5; rad 1 2] [0]);
     is_commuting (gate_on "CRot" [rad 1 10; rad 1 5; rad 3 10] [0; 1]) (gate_on "U2" [rad 2 5; rad 1 2] [1])]
    = [Ok false; Ok false].
Proof. vm_compute. reflexivity. Qed.

(** [test_u2_crot]: U2(0.1, 0.2) and CRot(0.3, 0.4, 0.5). *)
Example test_u2_crot :
    [is_commuting (gate_on "U2" [rad 1 10; rad 1 5] [0]) (gate_on "CRot" [rad 3 10; rad 2 5; rad 1 2] [0; 1]);
     is_commuting (gate_on "U2" [rad 1 10; rad 1 5] [1]) (gate_on "CRot" [rad 3 10; rad 2 5; rad 1 2] [0; 1])]
    = [Ok false; Ok false].
Proof. vm_compute. reflexivity. Qed.

(** [test_crot_crot]: CRot(0.1, 0.2, 0.3) and CRot(0.3, 0.4, 0.5). *)
Example test_crot_crot :
    [is_commuting (gate_on "CRot" [rad 1 10; rad 1 5; rad 3 10] [0; 1]) (gate_on "CRot" [rad 3 10; rad 2 5; rad 1 2] [0; 1]);
     is_commuting (gate_on "CRot" [rad 1 10; rad 1 5; rad 3 10] [1; 0]) (gate_on "CRot" [rad 3 10; rad 2 5; rad 1 2] [0; 1]);
     is_commuting (gate_on "CRot" [rad 1 10; rad 1 5; rad 3 10] [0; 1]) (gate_on "CRot" [rad 3 10; rad 2 5; rad 1 2] [0; 2]);
     is_commuting (gate_on "CRot" [rad 1 10; rad 1 5; rad 3 10] [1; 2]) (gate_on "CRot" [rad 3 10; rad 2 5; rad 1 2] [0; 2])]
    = [Ok false; Ok false; Ok true; Ok false].
Proof. vm_compute. reflexivity. Qed.

(** [test_u3_simplified_z]: U3(0, 0.1, 0) and PauliZ. *)
Example test_u3_simplified_z :
    [is_commuting (gate_on "U3" [rad 0 1; rad 1 10; rad 0 1] [0]) (gate_on "PauliZ" [] [0]);
     is_commuting (gate_on "U3" [rad 0 1; rad 1 10; rad 0 1] [1]) (gate_on "PauliZ" [] [0])]
    = [Ok true; Ok true].
Proof. vm_compute. reflexivity. Qed.

(** [test_u3_simplified_y]: U3(0.1, 0, 0) and PauliY. *)
Example test_u3_simplified_y :
    [is_commuting (gate_on "U3" [rad 1 10; rad 0 1; rad 0 1] [0]) (gate_on "PauliY" [] [0]);
     is_commuting (gate_on "U3" [rad 1 10; rad 0 1; rad 0 1] [1]) (gate_on "PauliY" [] [0])]
    = [Ok true; Ok true].
Proof. vm_compute. reflexivity. Qed.

(** [test_u3_simplified_x]: U3(0.1, -pi/2, pi/2) and PauliX. *)
Example test_u3_simplified_x :
    [is_commuting (gate_on "U3" [rad 1 10; pis (-1) 2; pis 1 2] [0]) (gate_on "PauliX" [] [0]);
     is_commuting (gate_on "U3" [rad 1 10; pis (-1) 2; pis 1 2] [0]) (gate_on "PauliX" [] [1])]
    = [Ok true; Ok true].
Proof. vm_compute. reflexivity. Qed.

(** [test_u3_rot]: U3(0.1, 0.2, 0.3) and Rot(0.3, 0.2, 0.1). *)
Example test_u3_rot :
    [is_commuting (gate_on "U3" [rad 1 10; rad 1 5; rad 3 10] [0]) (gate_on "Rot" [rad 3 10; rad 1 5; rad 1 10] [0]);
     is_commuting (gate_on "U3" [rad 1 10; rad 1 5; rad 3 10] [0]) (gate_on "Rot" [rad 3 10; rad 1 5; rad 1 10] [1])]
    = [Ok false; Ok true].
Proof. vm_compute. reflexivity. Qed.

(** [test_u3_identity_barrier]: Barrier and U3(0, 0, 0), the definition of the name that the test class keeps. *)
Example test_u3_identity_barrier :
    [is_commuting (gate_on "Barrier" [] [0]) (gate_on "U3" [rad 0 1; rad 0 1; rad 0 1] [0]);
     is_commuting (gate_on "Barrier" [] [1]) (gate_on "U3" [rad 0 1; rad 0 1; rad 0 1] [0])]
    = [Ok false; Ok true].
Proof. vm_compute. reflexivity. Qed.

(** [test_non_commuting]: PauliX and QFT. *)
Example test_non_commuting :
    [is_commuting (gate_on "PauliX" [] [0]) (gate_on "QFT" [] [1; 0])]
    = [Ok false].
Proof. vm_compute. reflexivity. Qed.

(** [test_operation_1_not_supported], [test_operation_2_not_supported]. *)
Example test_operation_not_supported :
    [is_commuting (gate_on "QubitDensityMatrix" [] [0]) (gate_on "PauliX" [] [0]);
     is_commuting (gate_on "PauliX" [] [0]) (gate_on "PauliRot" [rad 1 1] [0])]
    = [Err (UnsupportedOperationError "Operation QubitDensityMatrix not supported.");
       Err (UnsupportedOperationError "Operation PauliRot not supported.")].
Proof. vm_compute. reflexivity. Qed.

(** [test_operation_1_multiple_targets], [test_operation_2_multiple_targets]. *)
Example test_operation_multiple_targets :
    [is_commuting (ctrl [("PauliZ", [2]); ("PauliY", [2])] [0; 1]) (gate_on "PauliX" [] [0]);
     is_commuting (gate_on "PauliX" [] [0]) (ctrl [("PauliZ", [2]); ("PauliY", [2])] [0; 1])]
    = [Err (UnsupportedOperationError "MultipleTargets controlled is not supported.");
       Err (UnsupportedOperationError "MultipleTargets controlled is not supported.")].
Proof. vm_compute. reflexivity. Qed.

End CommutationFacts.

(** ** The DAG *)

Module DAGFacts.
Import Commutation DAG.

Lemma elem_of_insert_sorted x y l : x ∈ insert_sorted y l <-> x = y \/ x ∈ l.
Proof.
  induction l as [|z l IH]; simpl.
  - rewrite list_elem_of_singleton, elem_of_nil. tauto.
  - destruct (Nat.ltb y z) eqn:E1; [by rewrite elem_of_cons|].
    destruct (Nat.eqb y z) eqn:E2.
    + apply Nat.eqb_eq in E2. subst. rewrite elem_of_cons. tauto.
    + rewrite !elem_of_cons, IH. tauto.
Qed.

Lemma elem_of_sort_nodup x l : x ∈ sort_nodup l <-> x ∈ l.
Proof.
  unfold sort_nodup. induction l as [|y l IH]; simpl; [done|].
  by rewrite elem_of_insert_sorted, IH, elem_of_cons.
Qed.

Lemma path_weaken es es' i j : es ⊆ es' -> path es i j -> path es' i j.
Proof.
  intros Hsub Hp. induction Hp as [i j H|i j k H _ IH].
  - apply path_edge. auto.
  - eapply path_step; eauto.
Qed.

Lemma path_trans es i j k : path es i j -> path es j k -> path es i k.
Proof.
  intros H1 H2. induction H1 as [i j H|i j m H _ IH].
  - eapply path_step; eauto.
  - eapply path_step; eauto.
Qed.

Lemma path_increasing es i j :
  (forall a b, (a, b) ∈ es -> (a < b)%nat) -> path es i j -> (i < j)%nat.
Proof.
  intros Hes Hp. induction Hp as [i j H|i j k H _ IH].
  - auto.
  - apply Hes in H. lia.
Qed.

Lemma path_last es p k :
  path es p k -> exists x, (x, k) ∈ es /\ (p = x \/ path es p x).
Proof.
  intros Hp. induction Hp as [i j H|i j k H Hp (x & Hx & IH)].
  - exists i. auto.
  - exists x. split; [done|]. right. destruct IH as [->|IH].
    + by apply path_edge.
    + by eapply path_step.
Qed.

Lemma path_first es i j : path es i j -> exists x, (i, x) ∈ es.
Proof. intros [? ? H|? x ? H _]; eauto. Qed.

Lemma path_first_step es i j :
  path es i j -> exists x, (i, x) ∈ es /\ (x = j \/ path es x j).
Proof. intros [? ? H|? x ? H Hp]; eauto. Qed.

(** A path that does not end at [k] avoids the edges into [k], when no edge
    leaves [k]. *)
Lemma path_avoids es (new : list (nat * nat)) k p i :
  (forall a b, (a, b) ∈ new -> b = k) ->
  (forall a b, (a, b) ∈ (es ++ new)%list -> a <> k) ->
  path (es ++ new)%list p i -> i <> k -> path es p i.
Proof.
  intros Hnew Hsrc Hp Hi. induction Hp as [i j H|i j m H Hp IH].
  - apply path_edge. apply elem_of_app in H as [H|H]; [done|].
    apply Hnew in H. congruence.
  - specialize (IH Hi). apply elem_of_app in H as [H|H].
    + by eapply path_step.
    + apply Hnew in H. subst j. destruct (path_first _ _ _ Hp) as [x Hx].
      by apply Hsrc in Hx.
Qed.

Section Builder.
Context {R : Rules}.

Lemma scan_linked new earlier dominated linked l x :
  scan new earlier dominated linked = Ok l -> x ∈ l ->
  x ∈ linked \/ exists n, n ∈ earlier /\ node_id n = x.
Proof.
  revert dominated linked. induction earlier as [|n rest IH]; intros dominated linked Hs Hx; simpl in Hs.
  - inversion Hs; subst. by left.
  - assert (Hrest : forall dom acc, scan new rest dom acc = Ok l ->
              (forall y, y ∈ acc -> y ∈ linked \/ y = node_id n) ->
              x ∈ linked ∨ (∃ n0 : node, n0 ∈ n :: rest ∧ node_id n0 = x)).
    { intros dom acc Hs' Hacc. destruct (IH _ _ Hs' Hx) as [Hin|(m & Hm & Hid)].
      - destruct (Hacc _ Hin) as [?| ->]; [by left|]. right. exists n. split; [left|done].
      - right. exists m. split; [by right|done]. }
    destruct (bool_decide _); [eapply Hrest; eauto|].
    destruct (disjoint_wires _ _); [eapply Hrest; eauto|].
    destruct (commutes _ _) as [[|]|]; [eapply Hrest; eauto| |done].
    eapply Hrest; eauto. intros y Hy. apply elem_of_cons in Hy. tauto.
Qed.

Lemma elem_of_map {A B} (f : A -> B) l y : y ∈ map f l <-> exists x, y = f x /\ x ∈ l.
Proof.
  rewrite list_elem_of_In, in_map_iff. split; intros (x & H1 & H2); exists x.
  - by rewrite list_elem_of_In.
  - by rewrite <- list_elem_of_In.
Qed.

Lemma elem_of_concat {A} (ls : list (list A)) x : x ∈ concat ls <-> exists l, x ∈ l /\ l ∈ ls.
Proof.
  rewrite list_elem_of_In, in_concat. split; intros (l & H1 & H2); exists l.
  - by rewrite !list_elem_of_In.
  - by rewrite <- !list_elem_of_In.
Qed.

Lemma elem_of_rev {A} (l : list A) x : x ∈ rev l <-> x ∈ l.
Proof. by rewrite !list_elem_of_In, <- in_rev. Qed.

Lemma add_node_well_formed d new d' :
  well_formed d -> add_node d new = Ok d' -> well_formed d'.
Proof.
  intros [Hids Hedges Hpred Hsucc]. unfold add_node.
  destruct (scan _ _ _ _) as [linked|] eqn:Hscan; [|done].
  intros [= <-].
  assert (Hlinked : forall x, x ∈ linked -> (x < length (nodes d))%nat).
  { intros x Hx. destruct (scan_linked _ _ _ _ _ _ Hscan Hx) as [Hin|(n & Hn & Hid)].
    - by apply elem_of_nil in Hin.
    - rewrite elem_of_rev in Hn. apply list_elem_of_lookup in Hn as [i Hi].
      rewrite <- Hid, (Hids _ _ Hi). by eapply lookup_lt_Some. }
  assert (Hnew : forall x, x ∈ linked ->
            (x, length (nodes d)) ∈ (edges d ++ map (fun i => (i, length (nodes d))) linked)%list).
  { intros x Hx. apply elem_of_app. right. apply elem_of_map. eauto. }
  assert (Hold : edges d ⊆ (edges d ++ map (fun i => (i, length (nodes d))) linked)%list).
  { intros e He. apply elem_of_app. by left. }
  split; simpl.
  - intros i n Hi. apply lookup_app_Some in Hi as [Hi|[Hlen Hi]]; [eauto|].
    apply list_lookup_singleton_Some in Hi as [Hi <-]. simpl. lia.
  - intros i j Hij. rewrite length_app. simpl.
    apply elem_of_app in Hij as [Hij|Hij].
    + apply Hedges in Hij. lia.
    + apply elem_of_map in Hij as (x & [= -> ->] & Hx). apply Hlinked in Hx. lia.
  - intros i n p Hi Hp. apply lookup_app_Some in Hi as [Hi|[Hlen Hi]].
    + eapply path_weaken; [exact Hold|eauto].
    + apply list_lookup_singleton_Some in Hi as [Hi <-]. simpl in Hp.
      assert (i = length (nodes d)) as -> by lia.
      apply elem_of_sort_nodup, elem_of_app in Hp as [Hp|Hp].
      * apply path_edge. auto.
      * apply elem_of_concat in Hp as (l & Hpl & Hl).
        apply elem_of_map in Hl as (x & -> & Hx).
        unfold predecessors_of in Hpl.
        destruct (nodes d !! x) as [m|] eqn:Hm; [|by apply elem_of_nil in Hpl].
        eapply path_trans.
        -- eapply path_weaken; [exact Hold|eapply Hpred; eauto].
        -- apply path_edge. auto.
  - intros i n j Hi Hj. apply lookup_app_Some in Hi as [Hi|[Hlen Hi]].
    + eapply path_weaken; [exact Hold|eauto].
    + apply list_lookup_singleton_Some in Hi as [Hi <-]. simpl in Hj.
      by apply elem_of_nil in Hj.
Qed.

Lemma empty_well_formed : well_formed empty.
Proof.
  split; simpl.
  - intros i n Hi. by rewrite lookup_nil in Hi.
  - intros i j Hij. by apply elem_of_nil in Hij.
  - intros i n p Hi. by rewrite lookup_nil in Hi.
  - intros i n p Hi. by rewrite lookup_nil in Hi.
Qed.

Lemma add_nodes_well_formed ops d d' :
  well_formed d -> add_nodes d ops = Ok d' -> well_formed d'.
Proof.
  revert d. induction ops as [|o ops IH]; intros d Hwf; simpl.
  - by intros [= <-].
  - destruct (add_node d o) as [d1|] eqn:Hadd; [|done].
    intros Hrest. eapply IH; [|exact Hrest]. eapply add_node_well_formed; eauto.
Qed.

Lemma elem_of_direct_successors_of es i j :
  j ∈ direct_successors_of es i <-> (i, j) ∈ es.
Proof.
  unfold direct_successors_of. rewrite elem_of_sort_nodup, elem_of_map. split.
  - intros ([a b] & -> & He). apply list_elem_of_filter in He as [Hi He].
    simpl in *. by subst.
  - intros He. exists (i, j). split; [done|]. by apply list_elem_of_filter.
Qed.

Lemma elem_of_direct_predecessors_of es i j :
  i ∈ direct_predecessors_of es j <-> (i, j) ∈ es.
Proof.
  unfold direct_predecessors_of. rewrite elem_of_sort_nodup, elem_of_map. split.
  - intros ([a b] & -> & He). apply list_elem_of_filter in He as [Hi He].
    simpl in *. by subst.
  - intros He. exists (i, j). split; [done|]. by apply list_elem_of_filter.
Qed.

(** What memoizing the successors keeps of a list of nodes. *)
Definition same_but_successors (ns acc : list node) : Prop :=
  length acc = length ns /\
  forall i n, acc !! i = Some n ->
    exists n0, ns !! i = Some n0 /\ op n = op n0 /\ node_id n = node_id n0
               /\ predecessors n = predecessors n0.

Definition successors_sound (es : list (nat * nat)) (acc : list node) : Prop :=
  forall i n j, acc !! i = Some n -> j ∈ successors n -> path es i j.

Lemma add_successors_step es ns acc i :
  same_but_successors ns acc -> successors_sound es acc ->
  let direct := direct_successors_of es i in
  let acc' := alter (fun n => set_successors n
                (sort_nodup (direct ++ concat (map (successors_of acc) direct)))) i acc in
  same_but_successors ns acc' /\ successors_sound es acc'.
Proof.
  intros [Hlen Hsame] Hsound direct acc'. split; [split|].
  - unfold acc'. by rewrite length_alter.
  - intros k n Hk. unfold acc' in Hk. rewrite list_lookup_alter in Hk.
    destruct (decide (i = k)) as [->|Hne].
    + destruct (acc !! k) as [m|] eqn:Hm; [|done]. simpl in Hk.
      injection Hk as <-. simpl. eauto.
    + eauto.
  - intros k n j Hk Hj. unfold acc' in Hk. rewrite list_lookup_alter in Hk.
    destruct (decide (i = k)) as [->|Hne]; [|by eapply Hsound].
    destruct (acc !! k) as [m|] eqn:Hm; [|done]. simpl in Hk.
    injection Hk as <-. simpl in Hj.
    apply elem_of_sort_nodup, elem_of_app in Hj as [Hj|Hj].
    + apply path_edge. by apply elem_of_direct_successors_of.
    + apply elem_of_concat in Hj as (l & Hjl & Hl).
      apply elem_of_map in Hl as (x & -> & Hx).
      apply elem_of_direct_successors_of in Hx.
      unfold successors_of in Hjl.
      destruct (acc !! x) as [mx|] eqn:Hmx; [|by apply elem_of_nil in Hjl].
      eapply path_step; [exact Hx|]. by eapply Hsound.
Qed.

Lemma add_successors_fold es ns idx acc :
  same_but_successors ns acc -> successors_sound es acc ->
  let acc' := foldl (fun acc i =>
           let direct := direct_successors_of es i in
           alter (fun n => set_successors n
                    (sort_nodup (direct ++ concat (map (successors_of acc) direct))))
                 i acc) acc idx in
  same_but_successors ns acc' /\ successors_sound es acc'.
Proof.
  revert acc. induction idx as [|i idx IH]; intros acc Hsame Hsound; simpl; [done|].
  destruct (add_successors_step es ns acc i Hsame Hsound) as [H1 H2].
  by apply IH.
Qed.

Lemma add_successors_well_formed d obs fr :
  well_formed d ->
  well_formed (Dag (add_successors (edges d) (nodes d)) (edges d) obs fr).
Proof.
  intros [Hids Hedges Hpred Hsucc].
  assert (H : same_but_successors (nodes d) (add_successors (edges d) (nodes d))
              /\ successors_sound (edges d) (add_successors (edges d) (nodes d))).
  { apply add_successors_fold; [|exact Hsucc].
    split; [done|]. intros i n Hi. eauto. }
  destruct H as [[Hlen Hsame] Hsound].
  split; simpl.
  - intros i n Hi. destruct (Hsame _ _ Hi) as (n0 & Hn0 & _ & -> & _). eauto.
  - intros i j Hij. rewrite Hlen. auto.
  - intros i n p Hi Hp. destruct (Hsame _ _ Hi) as (n0 & Hn0 & _ & _ & Heq).
    rewrite Heq in Hp. eauto.
  - exact Hsound.
Qed.

Lemma build_well_formed ops obs d : build ops obs = Ok d -> well_formed d.
Proof.
  unfold build. destruct (add_nodes _ _) as [d0|] eqn:Hadd; [|done].
  intros [= <-]. apply add_successors_well_formed.
  eapply add_nodes_well_formed; [apply empty_well_formed|exact Hadd].
Qed.

Lemma commutation_dag_well_formed c d : commutation_dag c = Ok d -> well_formed d.
Proof.
  destruct c as [ops obs|ops obs|ops obs|]; simpl; try done.
  - apply build_well_formed.
  - apply build_well_formed.
  - destruct ops; [done|]. apply build_well_formed.
Qed.

Lemma add_node_predecessors_complete d new d' :
  well_formed d -> predecessors_complete d -> add_node d new = Ok d' ->
  predecessors_complete d'.
Proof.
  intros Hwf Hcomplete. assert (Hwf' := Hwf). destruct Hwf' as [Hids Hedges Hpred Hsucc].
  unfold add_node.
  destruct (scan _ _ _ _) as [linked|] eqn:Hscan; [|done].
  intros [= <-]. unfold predecessors_complete. simpl.
  set (k := length (nodes d)).
  set (new_edges := map (fun i => (i, k)) linked).
  assert (Hnew : forall a b, (a, b) ∈ new_edges -> b = k /\ a ∈ linked).
  { intros a b H. apply elem_of_map in H as (x & [= -> ->] & Hx). done. }
  assert (Hlinked : forall x, x ∈ linked -> (x < k)%nat).
  { intros x Hx. destruct (scan_linked _ _ _ _ _ _ Hscan Hx) as [Hin|(n & Hn & Hid)].
    - by apply elem_of_nil in Hin.
    - rewrite elem_of_rev in Hn. apply list_elem_of_lookup in Hn as [i Hi].
      rewrite <- Hid, (Hids _ _ Hi). unfold k. by eapply lookup_lt_Some. }
  assert (Hsrc : forall a b, (a, b) ∈ (edges d ++ new_edges)%list -> a <> k).
  { intros a b H. apply elem_of_app in H as [H|H].
    - apply Hedges in H. unfold k. lia.
    - apply Hnew in H as [_ H]. apply Hlinked in H. lia. }
  assert (Hold : forall p i, path (edges d ++ new_edges)%list p i -> i <> k ->
                             path (edges d) p i).
  { intros p i. apply path_avoids; [|exact Hsrc]. intros a b H. apply Hnew in H. tauto. }
  intros i n p Hi Hp. apply lookup_app_Some in Hi as [Hi|[Hlen Hi]].
  - eapply Hcomplete; [exact Hi|]. apply Hold; [exact Hp|].
    apply lookup_lt_Some in Hi. unfold k. lia.
  - apply list_lookup_singleton_Some in Hi as [Hi <-]. simpl.
    assert (i = k) as -> by (unfold k; lia).
    apply elem_of_sort_nodup, elem_of_app.
    destruct (path_last _ _ _ Hp) as (x & Hx & Hpx).
    assert (x ∈ linked) as Hxl.
    { apply elem_of_app in Hx as [Hx|Hx].
      - apply Hedges in Hx. unfold k in Hx. lia.
      - apply Hnew in Hx. tauto. }
    destruct Hpx as [->|Hpx]; [by left|]. right.
    apply elem_of_concat. exists (predecessors_of (nodes d) x). split.
    + assert (x < k)%nat as Hxk by (by apply Hlinked).
      destruct (lookup_lt_is_Some_2 (nodes d) x Hxk) as [m Hm].
      unfold predecessors_of. rewrite Hm. eapply Hcomplete; [exact Hm|].
      apply Hold; [exact Hpx|lia].
    + apply elem_of_map. eauto.
Qed.

Lemma add_nodes_predecessors_complete ops d d' :
  well_formed d -> predecessors_complete d -> add_nodes d ops = Ok d' ->
  predecessors_complete d'.
Proof.
  revert d. induction ops as [|o ops IH]; intros d Hwf Hc; simpl.
  - by intros [= <-].
  - destruct (add_node d o) as [d1|] eqn:Hadd; [|done].
    intros Hrest. eapply IH; [| |exact Hrest].
    + by eapply add_node_well_formed.
    + by eapply add_node_predecessors_complete.
Qed.


Lemma add_successors_step_complete es acc m :
  (forall i j, (i, j) ∈ es -> (i < j < length acc)%nat) ->
  successors_complete_from es acc (S m) ->
  let direct := direct_successors_of es m in
  successors_complete_from es
    (alter (fun n => set_successors n
              (sort_nodup (direct ++ concat (map (successors_of acc) direct)))) m acc) m.
Proof.
  intros Hes Hc direct i n j Hmi Hi Hp. rewrite list_lookup_alter in Hi.
  destruct (decide (m = i)) as [<-|Hne]; [|apply (Hc i n j); [lia|exact Hi|exact Hp]].
  destruct (acc !! m) as [n0|] eqn:Hn0; [|done]. simpl in Hi. injection Hi as <-. simpl.
  apply elem_of_sort_nodup, elem_of_app.
  destruct (path_first_step _ _ _ Hp) as (x & Hx & Hxj).
  assert (x ∈ direct) as Hxd by (by apply elem_of_direct_successors_of).
  destruct Hxj as [->|Hxj]; [by left|]. right.
  apply elem_of_concat. exists (successors_of acc x). split.
  - pose proof (Hes _ _ Hx) as Hb. assert (x < length acc)%nat as Hlt by lia.
    destruct (lookup_lt_is_Some_2 acc x Hlt) as [mx Hmx].
    unfold successors_of. rewrite Hmx. apply (Hc x mx j); [lia|exact Hmx|exact Hxj].
  - apply elem_of_map. eauto.
Qed.

Lemma add_successors_fold_complete es len m : forall acc,
  length acc = len ->
  (forall i j, (i, j) ∈ es -> (i < j < len)%nat) ->
  successors_complete_from es acc m ->
  successors_complete_from es
    (foldl (fun acc i =>
           let direct := direct_successors_of es i in
           alter (fun n => set_successors n
                    (sort_nodup (direct ++ concat (map (successors_of acc) direct))))
                 i acc) acc (rev (seq 0 m))) 0.
Proof.
  induction m as [|m IH]; intros acc Hlen Hes Hc.
  - exact Hc.
  - rewrite seq_S, rev_app_distr. simpl. apply IH.
    + by rewrite length_alter.
    + exact Hes.
    + apply add_successors_step_complete; [|exact Hc].
      intros i j Hij. rewrite Hlen. auto.
Qed.

Lemma add_successors_complete d :
  well_formed d ->
  successors_complete_from (edges d) (add_successors (edges d) (nodes d)) 0.
Proof.
  intros [Hids Hedges Hpred Hsucc]. unfold add_successors.
  apply (add_successors_fold_complete _ (length (nodes d))); [done|exact Hedges|].
  intros i n j Hi Hn. apply lookup_lt_Some in Hn. lia.
Qed.

Lemma add_successors_same d :
  well_formed d ->
  same_but_successors (nodes d) (add_successors (edges d) (nodes d)).
Proof.
  intros [Hids Hedges Hpred Hsucc].
  apply (add_successors_fold (edges d) (nodes d) _ (nodes d)); [|exact Hsucc].
  split; [done|]. intros i n Hi. eauto.
Qed.

Lemma build_complete ops obs d :
  build ops obs = Ok d ->
  predecessors_complete d /\ successors_complete_from (edges d) (nodes d) 0.
Proof.
  unfold build. destruct (add_nodes _ _) as [d0|] eqn:Hadd; [|done].
  intros [= <-]. simpl.
  assert (Hwf : well_formed d0).
  { eapply add_nodes_well_formed; [apply empty_well_formed|exact Hadd]. }
  split.
  - intros i n p Hi Hp. simpl in *.
    destruct (add_successors_same d0 Hwf) as [_ Hsame].
    destruct (Hsame _ _ Hi) as (n0 & Hn0 & _ & _ & ->).
    eapply (add_nodes_predecessors_complete _ empty d0); eauto.
    + apply empty_well_formed.
    + intros k m q Hk. simpl in Hk. by rewrite lookup_nil in Hk.
  - by apply add_successors_complete.
Qed.

Lemma commutation_dag_complete c d :
  commutation_dag c = Ok d ->
  predecessors_complete d /\ successors_complete_from (edges d) (nodes d) 0.
Proof.
  destruct c as [ops obs|ops obs|ops obs|]; simpl; try done.
  - apply build_complete.
  - apply build_complete.
  - destruct ops; [done|]. apply build_complete.
Qed.

(** C4: in every DAG that the builder returns, each edge goes from an index to
    a strictly later one, so that no node is reached from itself along the
    edges, and no node is in its own transitive successor set or in its own
    transitive predecessor set. *)
Theorem C4_built_dag_acyclic (c : circuit) (d : dag) :
  commutation_dag c = Ok d ->
  (forall i j, (i, j) ∈ edges d -> (i < j)%nat)
  /\ (forall i, ~ path (edges d) i i)
  /\ (forall i l, get_successors d i = Ok l -> i ∉ l)
  /\ (forall i l, get_predecessors d i = Ok l -> i ∉ l).
Proof.
  intros Hbuild. destruct (commutation_dag_well_formed _ _ Hbuild) as [Hids Hedges Hpred Hsucc].
  assert (Hlt : forall i j, (i, j) ∈ edges d -> (i < j)%nat).
  { intros i j Hij. apply Hedges in Hij. lia. }
  assert (Hirr : forall i, ~ path (edges d) i i).
  { intros i Hp. apply (path_increasing _ _ _ Hlt) in Hp. lia. }
  repeat split; [exact Hlt|exact Hirr| |].
  - intros i l. unfold get_successors.
    destruct (nodes d !! i) as [n|] eqn:Hn; [|done]. intros [= <-] Hin.
    eapply Hirr, Hsucc; eauto.
  - intros i l. unfold get_predecessors.
    destruct (nodes d !! i) as [n|] eqn:Hn; [|done]. intros [= <-] Hin.
    eapply Hirr, Hpred; eauto.
Qed.

(** In every DAG that the builder returns, the transitive sets are the
    reachability relation of the edges: an index is in the successor set of a
    node exactly when a path of edges leads from the node to it, and in its
    predecessor set exactly when a path leads from it to the node; so one
    node is a successor of another exactly when the other is one of its
    predecessors, and the transitive sets hold the direct ones. *)
Theorem transitive_sets_are_reachability (c : circuit) (d : dag) :
  commutation_dag c = Ok d ->
  (forall i l, get_successors d i = Ok l -> forall j, j ∈ l <-> path (edges d) i j)
  /\ (forall i l, get_predecessors d i = Ok l -> forall p, p ∈ l <-> path (edges d) p i)
  /\ (forall i j ls lp, get_successors d j = Ok ls -> get_predecessors d i = Ok lp ->
        (i ∈ ls <-> j ∈ lp))
  /\ (forall i l ls, direct_successors d i = Ok l -> get_successors d i = Ok ls -> l ⊆ ls)
  /\ (forall i l lp, direct_predecessors d i = Ok l -> get_predecessors d i = Ok lp -> l ⊆ lp).
Proof.
  intros Hbuild.
  destruct (commutation_dag_well_formed _ _ Hbuild) as [Hids Hedges Hpred Hsucc].
  destruct (commutation_dag_complete _ _ Hbuild) as [Hcp Hcs].
  assert (Hs : forall i l, get_successors d i = Ok l ->
                 forall j, j ∈ l <-> path (edges d) i j);
    [|assert (Hp : forall i l, get_predecessors d i = Ok l ->
                 forall p, p ∈ l <-> path (edges d) p i)].
  - intros i l. unfold get_successors.
    destruct (nodes d !! i) as [n|] eqn:Hn; [|done]. intros [= <-] j. split.
    + by apply Hsucc.
    + apply (Hcs i n j); [lia|exact Hn].
  - intros i l. unfold get_predecessors.
    destruct (nodes d !! i) as [n|] eqn:Hn; [|done]. intros [= <-] p. split.
    + by apply Hpred.
    + by apply Hcp.
  - split; [exact Hs|]. split; [exact Hp|]. split; [|split].
    + intros i j ls lp Hls Hlp. by rewrite (Hs _ _ Hls), (Hp _ _ Hlp).
    + intros i l ls Hl Hls x Hx. apply (Hs _ _ Hls). apply path_edge.
      unfold direct_successors in Hl. destruct (nodes d !! i); [|done].
      injection Hl as <-. by apply elem_of_direct_successors_of.
    + intros i l lp Hl Hlp x Hx. apply (Hp _ _ Hlp). apply path_edge.
      unfold direct_predecessors in Hl. destruct (nodes d !! i); [|done].
      injection Hl as <-. by apply elem_of_direct_predecessors_of.
Qed.

End Builder.


(** *** The tests of [TestCommutationDAG], replayed on the rule data *)

Import CommutationFacts.

Definition transform : circuit -> result dag := commutation_dag (R:=test_rules).


(** The circuit of [test_dag_pattern]. *)
Definition pattern : list operator :=
  [gate_on "CNOT" [] [3; 0]; gate_on "PauliX" [] [4]; gate_on "PauliZ" [] [0];
   gate_on "CNOT" [] [4; 2]; gate_on "CNOT" [] [0; 1]; gate_on "CNOT" [] [3; 4];
   gate_on "CNOT" [] [1; 2]; gate_on "PauliX" [] [1]; gate_on "CNOT" [] [1; 0];
   gate_on "PauliX" [] [1]; gate_on "CNOT" [] [1; 2]; gate_on "CNOT" [] [0; 3]].

Definition pattern_dag : dag :=
  Eval vm_compute in
    match transform (QuantumFunction pattern []) with
    | Ok d => d
    | Err _ => empty
    end.

Lemma C4_witness :
  (forall i j, (i, j) ∈ edges pattern_dag -> (i < j)%nat)
  /\ (forall i, ~ path (edges pattern_dag) i i)
  /\ (forall i l, get_successors pattern_dag i = Ok l -> i ∉ l)
  /\ (forall i l, get_predecessors pattern_dag i = Ok l -> i ∉ l).
Proof.
  apply (C4_built_dag_acyclic (R:=test_rules) (QuantumFunction pattern []) pattern_dag).
  vm_compute. reflexivity.
Defined.

Lemma transitive_sets_witness :
  (forall i l, get_successors pattern_dag i = Ok l ->
     forall j, j ∈ l <-> path (edges pattern_dag) i j)
  /\ (forall i l, get_predecessors pattern_dag i = Ok l ->
       forall p, p ∈ l <-> path (edges pattern_dag) p i)
  /\ (forall i j ls lp, get_successors pattern_dag j = Ok ls ->
        get_predecessors pattern_dag i = Ok lp -> (i ∈ ls <-> j ∈ lp))
  /\ (forall i l ls, direct_successors pattern_dag i = Ok l ->
        get_successors pattern_dag i = Ok ls -> l ⊆ ls)
  /\ (forall i l lp, direct_predecessors pattern_dag i = Ok l ->
        get_predecessors pattern_dag i = Ok lp -> l ⊆ lp).
Proof.
  apply (transitive_sets_are_reachability (R:=test_rules)
           (QuantumFunction pattern []) pattern_dag).
  vm_compute. reflexivity.
Defined.

Definition queries {A} (f : dag -> nat -> result A) (d : dag) : list (result A) :=
  map (f d) (seq 0 (length (nodes d))).

Definition read_ok {A B} (f : A -> B) (r : result A) : option B :=
  match r with
  | Ok a => Some (f a)
  | Err _ => None
  end.

(** [test_dag_pattern]: the edges, then for every node its wires, on the
    renumbered wires 3, 0, 4, 2, 1, and its direct and transitive successors
    and predecessors. *)
Example test_dag_pattern :
    get_edges pattern_dag
    = [(0, 2, false); (0, 4, false); (1, 3, false); (2, 8, false); (3, 5, false);
       (4, 6, false); (5, 11, false); (6, 7, false); (7, 8, false); (8, 9, false);
       (8, 11, false); (9, 10, false)]%nat
    /\ map (fun n => wires (op n)) (nodes pattern_dag)
      = map (map WInt) [[0; 1]; [2]; [1]; [2; 3]; [1; 4]; [0; 2]; [4; 3]; [4];
                        [4; 1]; [4]; [4; 3]; [1; 0]]
    /\ queries direct_successors pattern_dag
      = map Ok [[2; 4]; [3]; [8]; [5]; [6]; [11]; [7]; [8]; [9; 11]; [10]; []; []]%nat
    /\ queries get_successors pattern_dag
      = map Ok [[2; 4; 6; 7; 8; 9; 10; 11]; [3; 5; 11]; [8; 9; 10; 11]; [5; 11];
                [6; 7; 8; 9; 10; 11]; [11]; [7; 8; 9; 10; 11]; [8; 9; 10; 11];
                [9; 10; 11]; [10]; []; []]%nat
    /\ queries direct_predecessors pattern_dag
      = map Ok [[]; []; [0]; [1]; [0]; [3]; [4]; [6]; [2; 7]; [8]; [9]; [5; 8]]%nat
    /\ queries get_predecessors pattern_dag
      = map Ok [[]; []; [0]; [1]; [0]; [1; 3]; [0; 4]; [0; 4; 6]; [0; 2; 4; 6; 7];
                [0; 2; 4; 6; 7; 8]; [0; 2; 4; 6; 7; 8; 9];
                [0; 1; 2; 3; 4; 5; 6; 7; 8]]%nat
    /\ observables pattern_dag = [].
Proof. vm_compute. repeat split. Qed.

(** [test_dag_transform_simple_dag_function], [.._tape] and [.._qnode]: PauliZ
    then PauliX on one wire; the QNode also returns the expectation value of
    PauliX. *)
Example test_dag_transform_simple_dag :
    let zx := [gate_on "PauliZ" [] [0]; gate_on "PauliX" [] [0]] in
    let simple := Dag [Node (gate_on "PauliZ" [] [0]) 0 [1%nat] [];
                       Node (gate_on "PauliX" [] [0]) 1 [] [0%nat]]
                      [(0, 1)%nat] [] [(WInt 0, 1%nat)] in
    transform (QuantumFunction zx []) = Ok simple
    /\ transform (Tape zx []) = Ok simple
    /\ get_edge simple 0 1 = Some false
    /\ get_edge simple 0 2 = None
    /\ get_edges simple = [(0, 1, false)]%nat
    /\ read_ok observables (transform (QNode zx [gate_on "PauliX" [] [0]]))
      = Some [gate_on "PauliX" [] [0]].
Proof. vm_compute. repeat split. Qed.

(** [test_dag_transform_simple_dag_function_custom_wire]: wires a and c are
    renumbered 0 and 1; the gates share no wire and get no edge. *)
Example test_dag_transform_custom_wire :
    let circuit := [Operator "PauliZ" [WStr "a"] [] []; Operator "PauliX" [WStr "c"] [] []] in
    read_ok (fun d => (map op (nodes d), get_edge d 0 1, get_edge d 0 2, observables d))
            (transform (QuantumFunction circuit []))
    = Some ([gate_on "PauliZ" [] [0]; gate_on "PauliX" [] [1]], None, None, []).
Proof. vm_compute. reflexivity. Qed.

(** [test_dag_wrong_function] and [test_dag_invalid_argument]. *)
Example test_dag_wrong_input :
    transform (QuantumFunction [] [])
    = Err (ValueError "Function contains no quantum operation")
    /\ transform NotACircuit
      = Err (ValueError "Input is not a tape, QNode, or quantum function").
Proof. split; reflexivity. Qed.

End DAGFacts.

(** ** The helpers of the mitigation tests *)

Module MitigateFacts.
Import Mitigate.

Lemma assert_all_prefix {A} (f : A -> A -> option bool) (l extra : list A) :
  Forall (fun a => f a a = Some true) l ->
  assert_all f l (l ++ extra) = Passes /\ assert_all f (l ++ extra) l = Passes.
Proof.
  induction 1 as [|a l Ha _ IH]; simpl.
  - split; [done|by destruct extra].
  - by rewrite Ha.
Qed.

Lemma assert_all_refl {A} (f : A -> A -> option bool) (l : list A) :
  Forall (fun a => f a a = Some true) l -> assert_all f l l = Passes.
Proof.
  intros H. destruct (assert_all_prefix f l [] H) as [H1 _]. by rewrite app_nil_r in H1.
Qed.

Section SameTape.
Context {P W R : Type} `{EqDecision W} `{EqDecision R}.
Variable allclose : P -> P -> option bool.

(** [same_tape] pairs the operations with [zip] and compares no count of
    them: a tape passes against itself with any further operations appended,
    on either side, when [np.allclose] holds of each parameter sequence and
    itself. *)
Theorem same_tape_ignores_trailing_operations
    (t : tape P W R) (extra : list (operator P W)) :
  Forall (fun o => allclose (parameters o) (parameters o) = Some true) (operations t) ->
  let longer := Tape (operations t ++ extra) (measurements t) (observables t) in
  same_tape allclose t longer = Passes
  /\ same_tape allclose longer t = Passes.
Proof.
  intros Hclose longer. unfold same_tape, longer. simpl.
  assert (forall (A B : Type) (HB : EqDecision B) (h : A -> B) (l e : list A),
            assert_all (fun a b => Some (bool_decide (h a = h b))) l (l ++ e) = Passes
            /\ assert_all (fun a b => Some (bool_decide (h a = h b))) (l ++ e) l = Passes)
    as Hdec.
  { intros A B ? h l e. apply assert_all_prefix, Forall_forall. intros a _.
    by rewrite bool_decide_eq_true_2. }
  assert (forall (A B : Type) (HB : EqDecision B) (h : A -> B) (l : list A),
            assert_all (fun a b => Some (bool_decide (h a = h b))) l l = Passes) as Hdec'.
  { intros A B ? h l. apply assert_all_refl, Forall_forall. intros a _.
    by rewrite bool_decide_eq_true_2. }
  destruct (assert_all_prefix (fun o1 o2 => allclose (parameters o1) (parameters o2))
              _ extra Hclose) as [Hc1 Hc2].
  destruct (Hdec _ _ _ (@name P W) (operations t) extra) as [Hn1 Hn2].
  destruct (Hdec _ _ _ (@wires P W) (operations t) extra) as [Hw1 Hw2].
  rewrite Hc1, Hc2, Hn1, Hn2, Hw1, Hw2.
  rewrite (Hdec' _ _ _ (@return_type R)), (Hdec' _ _ _ (@name P W)), (Hdec' _ _ _ (@wires P W)).
  rewrite bool_decide_eq_true_2 by done. done.
Qed.

End SameTape.

(** The fixture skips exactly when mitiq cannot be imported: no version has
    a major number below 0, so the test [v.major < t.major and v.minor <
    t.minor] against 0.11.0 is never true, and no installed version is skipped
    as too low. *)
Theorem mitiq_version_never_too_low (mitiq : option version) (reason : string) :
  skip_if_no_mitiq_support mitiq = Skips reason <->
  mitiq = None /\ reason = "Mitiq not available".
Proof.
  destruct mitiq as [v|]; simpl.
  - split; [done|by intros [? _]].
  - split; [by intros [= <-]|by intros [_ ->]].
Qed.

Lemma same_tape_witness :
  same_tape (W:=list Z) (R:=unit) (fun p q : list Z => Some (bool_decide (p = q)))
    (Tape [Operator "RX" [0] [9]] [] [])
    (Tape [Operator "RX" [0] [9]; Operator "RY" [1] [4]] [] [])
  = Passes.
Proof.
  destruct (same_tape_ignores_trailing_operations (W:=list Z) (R:=unit)
              (fun p q : list Z => Some (bool_decide (p = q)))
              (Tape [Operator "RX" [0] [9]] [] []) [Operator "RY" [1] [4]])
    as [H _]; [repeat constructor|].
  exact H.
Defined.

End MitigateFacts.
